(** * Route aggregation and busiest-airport selection of [route_chord.ipynb]

    The notebook's "Declare data" cell (examples/gallery/demos/matplotlib/
    route_chord.ipynb) is a chain of data-frame calls:

<<
    route_counts = routes.groupby(['SourceID', 'DestinationID']).Stops.count().reset_index()
    nodes = hv.Dataset(airports, 'AirportID', 'City')
    chord = hv.Chord((route_counts, nodes), ['SourceID', 'DestinationID'], ['Stops'])
    busiest = list(routes.groupby('SourceID').count().sort_values('Stops').iloc[-20:].index.values)
    busiest_airports = chord.select(AirportID=busiest, selection_mode='nodes')
>>

    Each call of the chain is one definition below, and the two pipelines are
    their compositions, written in the order of the source. The cells of a
    frame are integers or missing, as the ids and the stop counts of the route
    table are. *)

From Stdlib Require Import ZArith List String Bool Lia Permutation Sorted PeanoNat.
Import ListNotations.
Local Open Scope string_scope.
Local Open Scope list_scope.

(** * The data frames

    ** Frames *)

(** A cell of a frame: an integer, or the missing value. *)
Inductive scalar : Type :=
| NaN
| Int (z : Z).

Definition notna (v : scalar) : bool :=
  match v with NaN => false | Int _ => true end.

Definition scalar_eq_dec (a b : scalar) : {a = b} + {a <> b}.
Proof. decide equality; apply Z.eq_dec. Defined.

Definition scalar_eqb (a b : scalar) : bool :=
  if scalar_eq_dec a b then true else false.

(** An index label has one scalar per index level. *)
Definition label : Type := list scalar.

(** A frame: the names of its index levels (none for an unnamed index), its
    column labels, and its rows in order, each row being its index label and
    its cells (a cell absent from a short row reads as missing). *)
Record DataFrame : Type := mkDataFrame {
  index_names : list string;
  columns : list string;
  rows : list (label * list scalar)
}.

(** [df.values]: the cells, row by row. *)
Definition values (df : DataFrame) : list (list scalar) := map snd (rows df).

(** The [j]-th cell of a row. *)
Definition cell (j : nat) (r : list scalar) : scalar := nth j r NaN.

(** The positions of a label among the labels of an axis, counted from [n]. *)
Fixpoint positions_from (n : nat) (name : string) (labels : list string) : list nat :=
  match labels with
  | [] => []
  | c :: t =>
      if String.eqb c name then n :: positions_from (S n) name t
      else positions_from (S n) name t
  end.

Definition positions (name : string) (labels : list string) : list nat :=
  positions_from 0 name labels.

(** Where a label is on an axis: nowhere, at one position, or at several. *)
Inductive loc : Type :=
| Absent
| At (j : nat)
| Repeated.

(** [labels.get_loc(name)]; a repeated label has no position of its own. *)
Definition get_loc (name : string) (labels : list string) : loc :=
  match positions name labels with
  | [] => Absent
  | [j] => At j
  | _ :: _ :: _ => Repeated
  end.

(** [r[name]] for a row [r] of [df]: the cell under the one column of that
    label, missing when there is no such column or more than one. *)
Definition at_column (df : DataFrame) (name : string) (r : list scalar) : scalar :=
  match get_loc name (columns df) with
  | At j => cell j r
  | _ => NaN
  end.

(** ** Exceptions *)

Inductive exception : Type :=
| KeyError (key : string)
| AttributeError (attr : string)
| ValueError (name : string).

Inductive result (A : Type) : Type :=
| Ok (a : A)
| Raise (e : exception).
Arguments Ok {A} a.
Arguments Raise {A} e.

Definition bind {A B : Type} (m : result A) (k : A -> result B) : result B :=
  match m with
  | Ok a => k a
  | Raise e => Raise e
  end.

Notation "x <- m ;; k" := (bind m (fun x => k))
  (at level 61, m at next level, right associativity).

(** ** Grouping and counting *)

(** A grouped frame: the frame, the names of its grouping keys and where each
    key is read in a grouping row (see [grouping_rows]). *)
Record DataFrameGroupBy : Type := mkGroupBy {
  obj : DataFrame;
  by_names : list string;
  by_locs : list nat
}.

(** A selection of a grouped frame by a label: the columns of that label, one
    (a grouped series) when the label is not repeated. *)
Record SeriesGroupBy : Type := mkSeriesGroupBy {
  grouper : DataFrameGroupBy;
  sel_name : string;
  sel_locs : list nat
}.

(** A row cut or filled with missing cells to a width of [n]. *)
Definition pad (n : nat) (r : list scalar) : list scalar :=
  firstn n r ++ repeat NaN (n - List.length r).

(** The rows as grouping reads them: the cells of the columns, then the levels
    of the index label. *)
Definition grouping_rows (df : DataFrame) : list (list scalar) :=
  map (fun r => pad (List.length (columns df)) (snd r) ++ fst r) (rows df).

(** Where a grouping key is read. A key is a column label or, when no column
    has it, the name of an index level. [ValueError] for a label that is both,
    for a repeated column label (its grouper is not one-dimensional) and for a
    repeated level name; [KeyError] for a label that is neither. *)
Definition key_loc (df : DataFrame) (k : string) : result nat :=
  match get_loc k (columns df), get_loc k (index_names df) with
  | At j, Absent => Ok j
  | Absent, At i => Ok (List.length (columns df) + i)
  | Absent, Absent => Raise (KeyError k)
  | _, _ => Raise (ValueError k)
  end.

(** The keys are looked up in their order; the first exception ends the
    lookup. *)
Fixpoint get_locs (df : DataFrame) (keys : list string) : result (list nat) :=
  match keys with
  | [] => Ok []
  | k :: t => j <- key_loc df k ;; js <- get_locs df t ;; Ok (j :: js)
  end.

(** [df.groupby(keys)], for keys that are labels of the frame. (A list of keys
    that is as long as the frame and holds a label that is neither a column
    nor an index level is read by the library as an array of group labels;
    string labels are outside the cells of this model, which answers
    [KeyError] there. The statements on line 41 are about tables that have the
    two key columns or are not two rows long; line 46 passes its key as a
    scalar, which is never read so.) *)
Definition groupby (df : DataFrame) (keys : list string) : result DataFrameGroupBy :=
  locs <- get_locs df keys ;;
  Ok (mkGroupBy df keys locs).

(** [g.attr], for a name such as Stops that is not an attribute of the grouped
    object itself: the selection of the columns of that label,
    [AttributeError] when there is none. *)
Definition getattr (g : DataFrameGroupBy) (attr : string) : result SeriesGroupBy :=
  match positions attr (columns (obj g)) with
  | [] => Raise (AttributeError attr)
  | js => Ok (mkSeriesGroupBy g attr js)
  end.

(** The group key of a row; a row with a missing key cell belongs to no group. *)
Fixpoint key_of (locs : list nat) (r : list scalar) : option (list Z) :=
  match locs with
  | [] => Some []
  | j :: t =>
      match cell j r with
      | NaN => None
      | Int z => option_map (cons z) (key_of t r)
      end
  end.

(** Group keys are ordered level by level. *)
Fixpoint key_compare (a b : list Z) : comparison :=
  match a, b with
  | [], [] => Eq
  | [], _ :: _ => Lt
  | _ :: _, [] => Gt
  | x :: a', y :: b' =>
      match Z.compare x y with
      | Eq => key_compare a' b'
      | c => c
      end
  end.

Definition key_lt (a b : list Z) : Prop := key_compare a b = Lt.

(** What one row adds to the counters of its group: one for each selected
    column whose cell is not missing. *)
Definition observe (cols : list nat) (r : list scalar) : list nat :=
  map (fun j => if notna (cell j r) then 1 else 0) cols.

Fixpoint add_counts (u v : list nat) : list nat :=
  match u, v with
  | x :: u', y :: v' => (x + y) :: add_counts u' v'
  | _, _ => []
  end.

(** The counters, one entry per group, kept in ascending key order. *)
Fixpoint tally (k : list Z) (obs : list nat) (acc : list (list Z * list nat))
  : list (list Z * list nat) :=
  match acc with
  | [] => [(k, obs)]
  | (k', c) :: t =>
      match key_compare k k' with
      | Lt => (k, obs) :: acc
      | Eq => (k', add_counts c obs) :: t
      | Gt => (k', c) :: tally k obs t
      end
  end.

Definition tally_row (locs cols : list nat) (acc : list (list Z * list nat))
  (r : list scalar) : list (list Z * list nat) :=
  match key_of locs r with
  | None => acc
  | Some k => tally k (observe cols r) acc
  end.

(** One pass over the rows. *)
Definition group_counts (locs cols : list nat) (rs : list (list scalar))
  : list (list Z * list nat) :=
  fold_left (tally_row locs cols) rs [].

Definition count_cell (n : nat) : scalar := Int (Z.of_nat n).

(** The counts of the columns at [locs], labelled [names], per group of [g]:
    a frame indexed by the group keys in ascending order. *)
Definition grouped_count (g : DataFrameGroupBy) (names : list string)
  (locs : list nat) : DataFrame :=
  mkDataFrame (by_names g) names
    (map (fun kc => (map Int (fst kc), map count_cell (snd kc)))
       (group_counts (by_locs g) locs (grouping_rows (obj g)))).

(** [count()] of a selection: per group, the number of non-missing values of
    each selected column. *)
Definition SeriesGroupBy_count (s : SeriesGroupBy) : DataFrame :=
  grouped_count (grouper s) (map (fun _ => sel_name s) (sel_locs s)) (sel_locs s).

Definition number_rows {A : Type} (l : list A) : list (label * A) :=
  combine (map (fun i => [Int (Z.of_nat i)]) (seq 0 (List.length l))) l.

(** [reset_index()] of grouped counts: the index levels become the leading
    columns and the rows are numbered from zero. *)
Definition reset_index (df : DataFrame) : DataFrame :=
  mkDataFrame [] (index_names df ++ columns df)
    (number_rows (map (fun r => fst r ++ snd r) (rows df))).

(** The positions of the columns that are not grouping keys. *)
Definition value_locs (g : DataFrameGroupBy) : list nat :=
  filter (fun j => negb (existsb (Nat.eqb j) (by_locs g)))
    (seq 0 (List.length (columns (obj g)))).

(** [DataFrameGroupBy.count()]: per group and per non-key column, the number
    of non-missing values. *)
Definition DataFrameGroupBy_count (g : DataFrameGroupBy) : DataFrame :=
  grouped_count g
    (map (fun j => nth j (columns (obj g)) "") (value_locs g))
    (value_locs g).

(** ** Sorting and slicing *)

(** Ascending order of sort keys, missing values last. *)
Definition scalar_leb (a b : scalar) : bool :=
  match a, b with
  | Int x, Int y => (x <=? y)%Z
  | _, NaN => true
  | NaN, Int _ => false
  end.

Definition keyed_row : Type := (scalar * (label * list scalar))%type.

Definition keyed_le (a b : keyed_row) : Prop := scalar_leb (fst a) (fst b) = true.

(** [df.iloc[-n:]]: the last [n] rows, all of them when there are fewer. *)
Definition iloc_last (n : nat) (df : DataFrame) : DataFrame :=
  mkDataFrame (index_names df) (columns df)
    (skipn (List.length (rows df) - n) (rows df)).

(** [df.index.values] of a frame with a one-level index. *)
Definition index_values (df : DataFrame) : list scalar :=
  map (fun r => hd NaN (fst r)) (rows df).

(** * The two pipelines *)

(** [route_counts]: line 41 of the notebook. *)
Definition route_counts (routes : DataFrame) : result DataFrame :=
  g <- groupby routes ["SourceID"; "DestinationID"] ;;
  s <- getattr g "Stops" ;;
  Ok (reset_index (SeriesGroupBy_count s)).

Section Busiest.

(** [sort_values] is called with its default [kind='quicksort'], the sort of
    the array library, which is not a stable one. It is a parameter here, and
    the proofs assume of it only that it returns its input reordered, in
    ascending order of the sort key. *)
Variable quicksort : list keyed_row -> list keyed_row.

(** [df.sort_values(by)]: by a column or, when no column has the label, by
    an index level; [ValueError] for a label that is both or is repeated,
    [KeyError] for a label that is neither. *)
Definition sort_values (df : DataFrame) (by_col : string) : result DataFrame :=
  let sorted_by (key : label * list scalar -> scalar) :=
    mkDataFrame (index_names df) (columns df)
      (map snd (quicksort (map (fun r => (key r, r)) (rows df)))) in
  match get_loc by_col (columns df), get_loc by_col (index_names df) with
  | At j, Absent => Ok (sorted_by (fun r => cell j (snd r)))
  | Absent, At i => Ok (sorted_by (fun r => cell i (fst r)))
  | Absent, Absent => Raise (KeyError by_col)
  | _, _ => Raise (ValueError by_col)
  end.

(** [busiest]: line 46 of the notebook; its scalar key is a list of one key
    here. *)
Definition busiest (routes : DataFrame) : result (list scalar) :=
  g <- groupby routes ["SourceID"] ;;
  sorted <- sort_values (DataFrameGroupBy_count g) "Stops" ;;
  Ok (index_values (iloc_last 20 sorted)).

End Busiest.

(** The grouped counts that the ranking sorts:
    [routes.groupby('SourceID').count()]. *)
Definition source_counts (routes : DataFrame) : result DataFrame :=
  g <- groupby routes ["SourceID"] ;;
  Ok (DataFrameGroupBy_count g).

(** ** A sort *)

(** An instance of the sort: insertion sort, which keeps the rows of equal key
    in their order. *)
Fixpoint insert_keyed (x : keyed_row) (l : list keyed_row) : list keyed_row :=
  match l with
  | [] => [x]
  | y :: t => if scalar_leb (fst x) (fst y) then x :: l else y :: insert_keyed x t
  end.

Fixpoint insertion_sort (l : list keyed_row) : list keyed_row :=
  match l with
  | [] => []
  | x :: t => insert_keyed x (insertion_sort t)
  end.
(** * The chord structure *)

(** Modelled from the spec: the airport records, the chord structure and its
    node-mode selection. [hv.Dataset], [hv.Chord] and [Chord.select] are code
    of the plotting library, of which the notebook holds only the calls. The
    spec gives an airport record an id and a city name, makes the chord
    structure the edges of the route-count table together with the airport
    nodes, and has the selection yield "a subset containing only nodes whose
    id is in that list and only edges where the node-selection policy includes
    both (or either, depending on selection mode) endpoints". *)
Record Airport : Type := mkAirport {
  AirportID : scalar;
  City : string
}.

(** Modelled from the spec: the chord structure, of which [hv.Chord] is the
    constructor: the edges (the route-count table) and the airport nodes. *)
Record Chord : Type := mkChord {
  edges : DataFrame;
  nodes : list Airport
}.

(** Modelled from the spec: how a selection mode of [Chord.select] treats an
    edge; it asks for both of its endpoints, or for either of them. *)
Inductive endpoint_policy : Type :=
| BothEndpoints
| EitherEndpoint.

(** [x in ids]. *)
Definition member (x : scalar) (ids : list scalar) : bool :=
  existsb (scalar_eqb x) ids.

Definition edge_source (c : Chord) (r : label * list scalar) : scalar :=
  at_column (edges c) "SourceID" (snd r).

Definition edge_destination (c : Chord) (r : label * list scalar) : scalar :=
  at_column (edges c) "DestinationID" (snd r).

(** Modelled from the spec: the edges that [Chord.select] keeps under policy
    [p]. *)
Definition edge_selected (p : endpoint_policy) (c : Chord) (ids : list scalar)
  (r : label * list scalar) : bool :=
  match p with
  | BothEndpoints => member (edge_source c r) ids && member (edge_destination c r) ids
  | EitherEndpoint => member (edge_source c r) ids || member (edge_destination c r) ids
  end.

(** Modelled from the spec: [chord.select(AirportID=ids, selection_mode='nodes')],
    under the policy [p] of the node mode. *)
Definition select_nodes (p : endpoint_policy) (c : Chord) (ids : list scalar) : Chord :=
  mkChord
    (mkDataFrame (index_names (edges c)) (columns (edges c))
       (filter (edge_selected p c ids) (rows (edges c))))
    (filter (fun a => member (AirportID a) ids) (nodes c)).

(** What a policy asks of the endpoints of an edge. *)
Definition endpoints_selected (p : endpoint_policy) (ids : list scalar)
  (s d : scalar) : Prop :=
  match p with
  | BothEndpoints => In s ids /\ In d ids
  | EitherEndpoint => In s ids \/ In d ids
  end.

(** * The notions of the statements

    ** Rows of the route table *)

(** A plain frame: its column labels are distinct and its index has no name,
    as in a table read from a file. The statements on the two pipelines are
    about plain route tables. *)
Definition plain (df : DataFrame) : Prop :=
  NoDup (columns df) /\ index_names df = [].

(** The first position of a label, if any. *)
Fixpoint first_loc (name : string) (cols : list string) : option nat :=
  match cols with
  | [] => None
  | c :: t => if String.eqb c name then Some 0 else option_map S (first_loc name t)
  end.

(** A route table from (source, destination, stops) triples, numbered from zero. *)
Definition route_table (l : list (scalar * scalar * scalar)) : DataFrame :=
  mkDataFrame [] ["SourceID"; "DestinationID"; "Stops"]
    (number_rows (map (fun t => [fst (fst t); snd (fst t); snd t]) l)).

(** The number of rows that satisfy [f]. *)
Definition count_rows {A : Type} (f : A -> bool) (l : list A) : nat :=
  List.length (filter f l).

(** Row [r] of [routes] is a route from [s] to [d]. *)
Definition has_pair (routes : DataFrame) (s d : Z) (r : list scalar) : bool :=
  scalar_eqb (at_column routes "SourceID" r) (Int s)
  && scalar_eqb (at_column routes "DestinationID" r) (Int d).

(** Row [r] of [routes] is a route out of [s]. *)
Definition has_source (routes : DataFrame) (s : Z) (r : list scalar) : bool :=
  scalar_eqb (at_column routes "SourceID" r) (Int s).

(** Row [r] of [routes] has a stop count. *)
Definition has_stops (routes : DataFrame) (r : list scalar) : bool :=
  notna (at_column routes "Stops" r).

(** Row [r] of [routes] enters the aggregation: it has its source id, its
    destination id and its stop count. *)
Definition is_counted (routes : DataFrame) (r : list scalar) : bool :=
  notna (at_column routes "SourceID" r)
  && notna (at_column routes "DestinationID" r)
  && has_stops routes r.

(** A row of the route-count table. *)
Definition route_count_row (e : Z * Z * nat) : list scalar :=
  [Int (fst (fst e)); Int (snd (fst e)); count_cell (snd e)].

Definition is_source (routes : DataFrame) (s : Z) : Prop :=
  exists r, In r (values routes) /\ has_source routes s r = true.

(** The number of routes out of [s] that the ranking counts: those with a
    stop count. *)
Definition outgoing (routes : DataFrame) (s : Z) : nat :=
  count_rows (fun r => has_source routes s r && has_stops routes r) (values routes).

(** The number of route rows out of [s]. *)
Definition outgoing_rows (routes : DataFrame) (s : Z) : nat :=
  count_rows (has_source routes s) (values routes).

Fixpoint ints (l : list scalar) : list Z :=
  match l with
  | [] => []
  | NaN :: t => ints t
  | Int z :: t => z :: ints t
  end.

(** The distinct source ids occurring in the table. *)
Definition source_ids (routes : DataFrame) : list Z :=
  nodup Z.eq_dec (ints (map (at_column routes "SourceID") (values routes))).

(** The count by which the ranking orders an id. *)
Definition count_of (routes : DataFrame) (x : scalar) : nat :=
  match x with
  | Int s => outgoing routes s
  | NaN => 0
  end.

(** The number of route rows out of an id. *)
Definition row_count_of (routes : DataFrame) (x : scalar) : nat :=
  match x with
  | Int s => outgoing_rows routes s
  | NaN => 0
  end.

(** ** Counters and ranked rows *)

Definition key_eq_dec : forall a b : list Z, {a = b} + {a <> b} :=
  list_eq_dec Z.eq_dec.

Definition counters : Type := list (list Z * list nat).

Definition sorted_keys (acc : counters) : Prop :=
  StronglySorted key_lt (map fst acc).

Fixpoint find_key (k : list Z) (acc : counters) : option (list nat) :=
  match acc with
  | [] => None
  | (k', c) :: t => if key_eq_dec k k' then Some c else find_key k t
  end.

(** The counter of group [k] for the [i]-th selected column. *)
Definition nobs (k : list Z) (i : nat) (acc : counters) : nat :=
  match find_key k acc with
  | Some c => nth i c 0
  | None => 0
  end.

Definition widths (n : nat) (acc : counters) : Prop :=
  Forall (fun kc => List.length (snd kc) = n) acc.

(** The sum of the counters of the [i]-th selected column over all groups. *)
Definition total (i : nat) (acc : counters) : nat :=
  list_sum (map (fun kc => nth i (snd kc) 0) acc).

Definition in_group (locs : list nat) (k : list Z) (r : list scalar) : bool :=
  match key_of locs r with
  | Some k' => if key_eq_dec k' k then true else false
  | None => false
  end.

(** Row [r] is counted for group [k] in column [j]. *)
Definition counted (locs : list nat) (j : nat) (k : list Z) (r : list scalar) : bool :=
  in_group locs k r && notna (cell j r).

(** Row [r] has a group and a value in column [j]. *)
Definition tallied (locs : list nat) (j : nat) (r : list scalar) : bool :=
  match key_of locs r with
  | Some _ => notna (cell j r)
  | None => false
  end.

(** The entries of the route-count table, read off the counters. *)
Definition route_entry (kc : list Z * list nat) : Z * Z * nat :=
  (nth 0 (fst kc) 0%Z, nth 1 (fst kc) 0%Z, hd 0 (snd kc)).

(** The index label of a keyed row of a frame with a one-level index. *)
Definition row_id (e : keyed_row) : scalar := hd NaN (fst (snd e)).

(** ** Sample tables *)

(** Two routes out of 2 and one out of 1. *)
Definition two_sources : DataFrame :=
  route_table [(Int 1, Int 9, Int 0); (Int 2, Int 9, Int 0); (Int 2, Int 8, Int 0)].

(** Source 0 has two routes, both without a stop count; each of the sources
    1 to 20 has one route, with its stop count. *)
Definition twenty_one_sources : DataFrame :=
  route_table
    ([(Int 0, Int 1, NaN); (Int 0, Int 2, NaN)]
       ++ map (fun i => (Int (Z.of_nat i), Int 0, Int 0)) (seq 1 20)).

(** Sources 1 and 2 have one route each, and each of the sources 3 to 22 has
    two. *)
Definition twenty_two_sources : DataFrame :=
  route_table
    (map (fun i => (Int (Z.of_nat i), Int 0, Int 0)) (seq 1 22)
       ++ map (fun i => (Int (Z.of_nat i), Int 1, Int 0)) (seq 3 20)).

(** A table with the Stops label on two columns. *)
Definition two_stops_columns : DataFrame :=
  mkDataFrame [] ["SourceID"; "DestinationID"; "Stops"; "Stops"]
    [([Int 0], [Int 1; Int 2; Int 0; NaN])].



(** The route table [(A,B,1), (A,B,1), (A,C,1)]. *)
Definition abc_routes (A B C : Z) : DataFrame :=
  route_table [(Int A, Int B, Int 1); (Int A, Int B, Int 1); (Int A, Int C, Int 1)].

(** * Further notions

    ** Orders and sums *)

(** Pairs of ids in the order of the group keys: by source, then by
    destination. *)
Definition pair_lt (a b : Z * Z) : Prop :=
  (fst a < fst b)%Z \/ (fst a = fst b /\ (snd a < snd b)%Z).

(** The sum of the counts of the entries out of [s]. *)
Definition total_from (s : Z) (es : list (Z * Z * nat)) : nat :=
  list_sum (map snd (filter (fun e => Z.eqb (fst (fst e)) s) es)).

(** The sum of the counters of the [i]-th selected column over the groups
    whose key satisfies [f]. *)
Definition total_if (f : list Z -> bool) (i : nat) (acc : counters) : nat :=
  list_sum (map (fun kc => if f (fst kc) then nth i (snd kc) 0 else 0) acc).

(** ** Frames with some of their rows *)

(** The frame [df] cut down to the rows whose cells satisfy [f]. *)
Definition keep_rows (f : list scalar -> bool) (df : DataFrame) : DataFrame :=
  mkDataFrame (index_names df) (columns df) (filter (fun r => f (snd r)) (rows df)).

(** Row [r] of [routes] has its source id and its destination id. *)
Definition has_ids (routes : DataFrame) (r : list scalar) : bool :=
  notna (at_column routes "SourceID" r)
  && notna (at_column routes "DestinationID" r).

(** Row [r] of [routes] has its source id. *)
Definition has_source_id (routes : DataFrame) (r : list scalar) : bool :=
  notna (at_column routes "SourceID" r).

(** A table with a route that lacks its source id and a route that lacks its
    destination id. *)
Definition rows_without_ids : DataFrame :=
  route_table [(Int 1, Int 2, Int 0); (NaN, Int 2, Int 0); (Int 1, NaN, Int 0);
               (Int 3, Int 2, Int 0)].

(** [two_sources] with its rows in another order. *)
Definition two_sources_shuffled : DataFrame :=
  route_table [(Int 2, Int 8, Int 0); (Int 1, Int 9, Int 0); (Int 2, Int 9, Int 0)].

(** [two_sources] with other stop counts. *)
Definition two_sources_other_stops : DataFrame :=
  route_table [(Int 1, Int 9, Int 2); (Int 2, Int 9, Int 1); (Int 2, Int 8, Int 5)].

(** Rows [r1] and [r2] have the same cells present. *)
Definition same_presence (r1 r2 : list scalar) : Prop :=
  forall j, notna (cell j r1) = notna (cell j r2).

(** * Properties of grouping

    ** The order of group keys *)

Lemma key_compare_eq (a b : list Z) : key_compare a b = Eq <-> a = b.
Proof.
  revert b; induction a as [|x a IH]; intros [|y b]; simpl;
    try (split; [discriminate | discriminate]); try tauto.
  destruct (Z.compare_spec x y) as [E|L|G].
  - subst y. rewrite IH. split; [intros ->; reflexivity | congruence].
  - split; [discriminate | intros [= -> _]; lia].
  - split; [discriminate | intros [= -> _]; lia].
Qed.

Lemma key_compare_refl (a : list Z) : key_compare a a = Eq.
Proof. apply key_compare_eq; reflexivity. Qed.

Lemma key_compare_antisym (a b : list Z) :
  key_compare b a = CompOpp (key_compare a b).
Proof.
  revert b; induction a as [|x a IH]; intros [|y b]; simpl; try reflexivity.
  rewrite (Z.compare_antisym x y).
  destruct (x ?= y)%Z; simpl; auto.
Qed.

Lemma key_lt_irrefl (a : list Z) : ~ key_lt a a.
Proof. unfold key_lt; rewrite key_compare_refl; discriminate. Qed.

Lemma key_lt_trans (a b c : list Z) : key_lt a b -> key_lt b c -> key_lt a c.
Proof.
  unfold key_lt; revert b c; induction a as [|x a IH]; intros [|y b] [|z c];
    simpl; try discriminate; try reflexivity.
  destruct (Z.compare_spec x y) as [E|L|G]; try discriminate.
  - subst y. destruct (x ?= z)%Z; try discriminate; eauto.
  - intros _. destruct (Z.compare_spec y z) as [E'|L'|G']; try discriminate.
    + subst z. intros _. now rewrite (proj2 (Z.compare_lt_iff x y) L).
    + intros _. now rewrite (proj2 (Z.compare_lt_iff x z) (Z.lt_trans _ _ _ L L')).
Qed.

Lemma key_gt_lt (a b : list Z) : key_compare a b = Gt -> key_lt b a.
Proof.
  unfold key_lt; intros H. rewrite key_compare_antisym, H; reflexivity.
Qed.

(** ** The counters *)

Lemma sorted_keys_NoDup (acc : counters) : sorted_keys acc -> NoDup (map fst acc).
Proof.
  unfold sorted_keys; induction 1 as [|k l Hs IH Hall]; constructor; auto.
  intros Hin. rewrite Forall_forall in Hall.
  exact (key_lt_irrefl k (Hall k Hin)).
Qed.

Lemma find_key_None (k : list Z) (acc : counters) :
  find_key k acc = None <-> ~ In k (map fst acc).
Proof.
  induction acc as [|[k' c] t IH]; simpl.
  - tauto.
  - destruct (key_eq_dec k k') as [->|Hne].
    + split; [discriminate | intros H; exfalso; apply H; now left].
    + rewrite IH. split; [intros H [E|Hin]; [congruence | tauto] | tauto].
Qed.

Lemma find_key_In (k : list Z) (c : list nat) (acc : counters) :
  NoDup (map fst acc) -> (In (k, c) acc <-> find_key k acc = Some c).
Proof.
  induction acc as [|[k' c'] t IH]; simpl; intros Hnd.
  - split; [tauto | discriminate].
  - inversion Hnd as [|? ? Hnotin Hnd']; subst.
    destruct (key_eq_dec k k') as [->|Hne].
    + split.
      * intros [[= <-]|Hin]; [reflexivity|].
        exfalso; apply Hnotin. now apply (in_map fst) in Hin.
      * intros [= <-]; now left.
    + rewrite <- (IH Hnd'). split; [intros [[= -> _]|Hin]; [congruence | assumption] | now right].
Qed.

Lemma tally_keys (k k' : list Z) (obs : list nat) (acc : counters) :
  In k (map fst (tally k' obs acc)) <-> k = k' \/ In k (map fst acc).
Proof.
  induction acc as [|[k0 c] t IH]; simpl.
  - intuition.
  - destruct (key_compare k' k0) eqn:E; simpl.
    + apply key_compare_eq in E; subst k0. intuition.
    + intuition.
    + rewrite IH. intuition.
Qed.

Lemma tally_sorted (k : list Z) (obs : list nat) (acc : counters) :
  sorted_keys acc -> sorted_keys (tally k obs acc).
Proof.
  unfold sorted_keys; induction acc as [|[k0 c] t IH]; simpl; intros Hs.
  - repeat constructor.
  - inversion Hs as [|? ? Hs' Hall]; subst.
    destruct (key_compare k k0) eqn:E; simpl.
    + constructor; assumption.
    + constructor; [assumption|]. constructor; [exact E|].
      eapply Forall_impl; [|exact Hall]. intros a Ha. exact (key_lt_trans _ _ _ E Ha).
    + constructor; [auto|]. rewrite Forall_forall in *. intros a Ha.
      apply tally_keys in Ha. destruct Ha as [->|Ha]; [now apply key_gt_lt | auto].
Qed.

Lemma tally_find_other (k k' : list Z) (obs : list nat) (acc : counters) :
  k <> k' -> find_key k (tally k' obs acc) = find_key k acc.
Proof.
  intros Hne; induction acc as [|[k0 c] t IH]; simpl.
  - destruct (key_eq_dec k k'); congruence.
  - destruct (key_compare k' k0) eqn:E; simpl.
    + apply key_compare_eq in E; subst k0.
      destruct (key_eq_dec k k'); congruence.
    + destruct (key_eq_dec k k'); congruence.
    + rewrite IH; reflexivity.
Qed.

Lemma tally_find_same (k : list Z) (obs : list nat) (acc : counters) :
  sorted_keys acc ->
  find_key k (tally k obs acc) =
    Some (match find_key k acc with Some c => add_counts c obs | None => obs end).
Proof.
  unfold sorted_keys; induction acc as [|[k0 c] t IH]; simpl; intros Hs.
  - destruct (key_eq_dec k k); congruence.
  - inversion Hs as [|? ? Hs' Hall]; subst.
    destruct (key_compare k k0) eqn:E; simpl.
    + apply key_compare_eq in E; subst k0.
      destruct (key_eq_dec k k); congruence.
    + destruct (key_eq_dec k k) as [_|]; [|congruence].
      destruct (key_eq_dec k k0) as [->|Hne].
      * rewrite key_compare_refl in E; discriminate.
      * assert (Hnone : find_key k t = None).
        { apply find_key_None. intros Hin. rewrite Forall_forall in Hall.
          apply (key_lt_irrefl k). exact (key_lt_trans _ _ _ E (Hall k Hin)). }
        now rewrite Hnone.
    + destruct (key_eq_dec k k0) as [->|Hne].
      * rewrite key_compare_refl in E; discriminate.
      * auto.
Qed.

Lemma add_counts_length (u v : list nat) :
  List.length u = List.length v -> List.length (add_counts u v) = List.length u.
Proof.
  revert v; induction u as [|x u IH]; intros [|y v]; simpl; intros H;
    try discriminate; auto.
Qed.

Lemma add_counts_nth (i : nat) (u v : list nat) :
  List.length u = List.length v ->
  nth i (add_counts u v) 0 = nth i u 0 + nth i v 0.
Proof.
  revert i v; induction u as [|x u IH]; intros i [|y v]; simpl; intros H;
    try discriminate.
  - destruct i; reflexivity.
  - destruct i; [reflexivity | apply IH; lia].
Qed.

Lemma find_key_width (n : nat) (k : list Z) (c : list nat) (acc : counters) :
  widths n acc -> find_key k acc = Some c -> List.length c = n.
Proof.
  unfold widths; induction 1 as [|[k' c'] t Hw _ IH]; simpl; [discriminate|].
  destruct (key_eq_dec k k'); [intros [= <-]; exact Hw | exact IH].
Qed.

Lemma tally_widths (n : nat) (k : list Z) (obs : list nat) (acc : counters) :
  widths n acc -> List.length obs = n -> widths n (tally k obs acc).
Proof.
  unfold widths; intros Hw Hobs; induction Hw as [|[k' c] t Hc Hw IH]; simpl.
  - repeat constructor; assumption.
  - simpl in Hc. destruct (key_compare k k'); repeat constructor; simpl; auto.
    rewrite add_counts_length; congruence.
Qed.

Lemma tally_nobs (n i : nat) (k k' : list Z) (obs : list nat) (acc : counters) :
  sorted_keys acc -> widths n acc -> List.length obs = n ->
  nobs k i (tally k' obs acc) =
    nobs k i acc + (if key_eq_dec k' k then nth i obs 0 else 0).
Proof.
  intros Hs Hw Hobs; unfold nobs.
  destruct (key_eq_dec k' k) as [->|Hne].
  - rewrite tally_find_same by assumption.
    destruct (find_key k acc) as [c|] eqn:E; [|reflexivity].
    apply add_counts_nth. rewrite (find_key_width n k c acc Hw E); congruence.
  - rewrite tally_find_other by congruence. lia.
Qed.

(** ** One pass over the rows *)

Lemma observe_length (cols : list nat) (r : list scalar) :
  List.length (observe cols r) = List.length cols.
Proof. apply length_map. Qed.

Lemma observe_nth (cols : list nat) (r : list scalar) (i : nat) :
  i < List.length cols ->
  nth i (observe cols r) 0 = if notna (cell (nth i cols 0) r) then 1 else 0.
Proof.
  revert i; induction cols as [|j cols' IH]; simpl; intros i Hi; [lia|].
  destruct i; [reflexivity | apply IH; lia].
Qed.

Section OnePass.

Variables locs cols : list nat.

Lemma tally_row_sorted (acc : counters) (r : list scalar) :
    sorted_keys acc -> sorted_keys (tally_row locs cols acc r).
  Proof.
    unfold tally_row; destruct (key_of locs r); auto using tally_sorted.
  Qed.

Lemma tally_row_widths (acc : counters) (r : list scalar) :
    widths (List.length cols) acc ->
    widths (List.length cols) (tally_row locs cols acc r).
  Proof.
    unfold tally_row; destruct (key_of locs r); auto.
    intros; apply tally_widths; auto using observe_length.
  Qed.

Lemma tally_row_keys (acc : counters) (r : list scalar) (k : list Z) :
    In k (map fst (tally_row locs cols acc r)) <->
    In k (map fst acc) \/ key_of locs r = Some k.
  Proof.
    unfold tally_row; destruct (key_of locs r) as [k'|].
    - rewrite tally_keys. split; intros [H|H]; auto; [subst; auto | injection H; auto].
    - split; [auto | intros [H|H]; [auto | discriminate]].
  Qed.

Lemma tally_row_nobs (acc : counters) (r : list scalar) (k : list Z) (i : nat) :
    sorted_keys acc -> widths (List.length cols) acc -> i < List.length cols ->
    nobs k i (tally_row locs cols acc r) =
      nobs k i acc + (if counted locs (nth i cols 0) k r then 1 else 0).
  Proof.
    intros Hs Hw Hi; unfold tally_row, counted, in_group.
    destruct (key_of locs r) as [k'|]; [|simpl; lia].
    rewrite (tally_nobs (List.length cols)) by auto using observe_length.
    rewrite observe_nth by assumption.
    destruct (key_eq_dec k' k); simpl; reflexivity.
  Qed.

Lemma pass_invariant (rs : list (list scalar)) (acc : counters) :
    sorted_keys acc -> widths (List.length cols) acc ->
    sorted_keys (fold_left (tally_row locs cols) rs acc) /\
    widths (List.length cols) (fold_left (tally_row locs cols) rs acc).
  Proof.
    revert acc; induction rs as [|r rs IH]; simpl; intros acc Hs Hw; [auto|].
    apply IH; auto using tally_row_sorted, tally_row_widths.
  Qed.

Lemma pass_keys (rs : list (list scalar)) (acc : counters) (k : list Z) :
    In k (map fst (fold_left (tally_row locs cols) rs acc)) <->
    In k (map fst acc) \/ exists r, In r rs /\ key_of locs r = Some k.
  Proof.
    revert acc; induction rs as [|r rs IH]; simpl; intros acc.
    - split; [auto | intros [H|[r [[] _]]]; exact H].
    - rewrite IH, tally_row_keys. split.
      + intros [[H|H]|[r' [Hin Hk]]]; eauto.
      + intros [H|[r' [[->|Hin] Hk]]]; eauto.
  Qed.

Lemma pass_nobs (rs : list (list scalar)) (acc : counters) (k : list Z) (i : nat) :
    sorted_keys acc -> widths (List.length cols) acc -> i < List.length cols ->
    nobs k i (fold_left (tally_row locs cols) rs acc) =
      nobs k i acc + count_rows (counted locs (nth i cols 0) k) rs.
  Proof.
    revert acc; induction rs as [|r rs IH]; simpl; intros acc Hs Hw Hi.
    - unfold count_rows; simpl; lia.
    - rewrite IH by auto using tally_row_sorted, tally_row_widths.
      rewrite tally_row_nobs by assumption.
      unfold count_rows; simpl.
      destruct (counted locs (nth i cols 0) k r); simpl; lia.
  Qed.

  (** The groups of a frame: sorted, one per key, of the right width. *)
Lemma group_counts_sorted (rs : list (list scalar)) :
    sorted_keys (group_counts locs cols rs).
  Proof. apply pass_invariant; constructor. Qed.

Lemma group_counts_widths (rs : list (list scalar)) :
    widths (List.length cols) (group_counts locs cols rs).
  Proof. apply pass_invariant; constructor. Qed.

Lemma group_counts_NoDup (rs : list (list scalar)) :
    NoDup (map fst (group_counts locs cols rs)).
  Proof. apply sorted_keys_NoDup, group_counts_sorted. Qed.

Lemma group_counts_keys (rs : list (list scalar)) (k : list Z) :
    In k (map fst (group_counts locs cols rs)) <->
    exists r, In r rs /\ key_of locs r = Some k.
  Proof.
    unfold group_counts; rewrite pass_keys; simpl. tauto.
  Qed.

Lemma group_counts_nobs (rs : list (list scalar)) (k : list Z) (i : nat) :
    i < List.length cols ->
    nobs k i (group_counts locs cols rs) =
      count_rows (counted locs (nth i cols 0) k) rs.
  Proof.
    intros Hi; unfold group_counts.
    rewrite pass_nobs by (auto; constructor). reflexivity.
  Qed.

Lemma group_counts_entry (rs : list (list scalar)) (k : list Z) (c : list nat) (i : nat) :
    In (k, c) (group_counts locs cols rs) -> i < List.length cols ->
    nth i c 0 = count_rows (counted locs (nth i cols 0) k) rs.
  Proof.
    intros Hin Hi. rewrite <- group_counts_nobs by assumption.
    apply find_key_In in Hin; [|apply group_counts_NoDup].
    unfold nobs; now rewrite Hin.
  Qed.

End OnePass.

(** ** Columns and rows *)

Lemma first_loc_In (name : string) (cols : list string) :
  In name cols -> exists j, first_loc name cols = Some j.
Proof.
  induction cols as [|c t IH]; simpl; [tauto|].
  intros H. destruct (String.eqb_spec c name) as [E|Hne]; [eauto|].
  destruct H as [H|H]; [contradiction|].
  destruct (IH H) as [j Hj]. rewrite Hj; simpl; eauto.
Qed.

Lemma first_loc_nth (name : string) (cols : list string) (j : nat) :
  first_loc name cols = Some j -> j < List.length cols /\ nth j cols "" = name.
Proof.
  revert j; induction cols as [|c t IH]; simpl; intros j; [discriminate|].
  destruct (String.eqb_spec c name) as [E|Hne].
  - intros [= <-]; split; [lia | assumption].
  - destruct (first_loc name t) as [j'|]; simpl; [|discriminate].
    intros [= <-]. destruct (IH j' eq_refl); split; [lia | assumption].
Qed.

Lemma first_loc_first (name : string) (cols : list string) (j i : nat) :
  first_loc name cols = Some j -> i < j -> nth i cols "" <> name.
Proof.
  revert j i; induction cols as [|c t IH]; simpl; intros j i; [discriminate|].
  destruct (String.eqb_spec c name) as [E|Hne].
  - intros [= <-]; lia.
  - destruct (first_loc name t) as [j'|] eqn:E; simpl; [|discriminate].
    intros [= <-] Hi. destruct i; [assumption | apply (IH j'); [reflexivity | lia]].
Qed.

Lemma number_rows_values {A : Type} (l : list A) : map snd (number_rows l) = l.
Proof.
  unfold number_rows. generalize 0.
  induction l as [|x l IH]; intros n; simpl; [reflexivity|].
  now rewrite IH.
Qed.

Lemma scalar_eqb_eq (a b : scalar) : scalar_eqb a b = true <-> a = b.
Proof.
  unfold scalar_eqb; destruct (scalar_eq_dec a b); split; congruence.
Qed.

Lemma count_rows_ext {A : Type} (f g : A -> bool) (l : list A) :
  (forall x, In x l -> f x = g x) -> count_rows f l = count_rows g l.
Proof.
  unfold count_rows; induction l as [|x l IH]; simpl; intros H; [reflexivity|].
  rewrite (H x) by auto. destruct (g x); simpl; rewrite IH; auto.
Qed.

Lemma key_of_one (j : nat) (r : list scalar) (k : list Z) :
  key_of [j] r = Some k <-> exists s, k = [s] /\ cell j r = Int s.
Proof.
  simpl; destruct (cell j r) as [|z]; simpl.
  - split; [discriminate | intros [s [_ H]]; discriminate].
  - split; [intros [= <-]; eauto | intros [s [-> [= ->]]]; reflexivity].
Qed.

Lemma key_of_two (j1 j2 : nat) (r : list scalar) (k : list Z) :
  key_of [j1; j2] r = Some k <->
  exists s d, k = [s; d] /\ cell j1 r = Int s /\ cell j2 r = Int d.
Proof.
  simpl; destruct (cell j1 r) as [|z1]; simpl.
  - split; [discriminate | intros [s [d [_ [H _]]]]; discriminate].
  - destruct (cell j2 r) as [|z2]; simpl.
    + split; [discriminate | intros [s [d [_ [_ H]]]]; discriminate].
    + split; [intros [= <-]; eauto | intros [s [d [-> [[= ->] [= ->]]]]]; reflexivity].
Qed.

Lemma in_group_true (locs : list nat) (k : list Z) (r : list scalar) :
  in_group locs k r = true <-> key_of locs r = Some k.
Proof.
  unfold in_group; destruct (key_of locs r) as [k'|].
  - destruct (key_eq_dec k' k); split; congruence.
  - split; discriminate.
Qed.

Lemma bool_eq_iff (a b : bool) : (a = true <-> b = true) -> a = b.
Proof. destruct a, b; intuition congruence. Qed.

(** * Plain frames *)

(** ** Labels and their positions *)

Lemma positions_from_absent (n : nat) (name : string) (cols : list string) :
  ~ In name cols -> positions_from n name cols = [].
Proof.
  revert n; induction cols as [|c t IH]; intros n H; simpl; [reflexivity|].
  destruct (String.eqb_spec c name) as [E|Hne]; [exfalso; apply H; now left|].
  apply IH. intros Hin. apply H. now right.
Qed.

Lemma positions_from_unique (n : nat) (name : string) (cols : list string) (j : nat) :
  NoDup cols -> first_loc name cols = Some j ->
  positions_from n name cols = [n + j].
Proof.
  revert n j; induction cols as [|c t IH]; intros n j Hnd; simpl; [discriminate|].
  inversion Hnd as [|? ? Hnotin Hnd']; subst.
  destruct (String.eqb_spec c name) as [E|Hne].
  - intros [= <-]. subst c. rewrite positions_from_absent by assumption.
    f_equal. lia.
  - destruct (first_loc name t) as [j'|] eqn:E; simpl; [|discriminate].
    intros [= <-]. rewrite (IH (S n) j' Hnd' eq_refl). f_equal. lia.
Qed.

Lemma positions_unique (name : string) (cols : list string) (j : nat) :
  NoDup cols -> first_loc name cols = Some j -> positions name cols = [j].
Proof. intros Hnd H. unfold positions. now rewrite (positions_from_unique 0 _ _ j). Qed.

Lemma get_loc_unique (name : string) (cols : list string) (j : nat) :
  NoDup cols -> first_loc name cols = Some j -> get_loc name cols = At j.
Proof. intros Hnd H. unfold get_loc. now rewrite (positions_unique _ _ j). Qed.

Lemma get_loc_absent (name : string) (cols : list string) :
  ~ In name cols -> get_loc name cols = Absent.
Proof.
  intros H. unfold get_loc, positions. now rewrite positions_from_absent.
Qed.

Lemma at_column_some (df : DataFrame) (name : string) (j : nat) (r : list scalar) :
  NoDup (columns df) -> first_loc name (columns df) = Some j ->
  at_column df name r = cell j r.
Proof. intros Hnd H. unfold at_column. now rewrite (get_loc_unique _ _ j). Qed.

(** ** Grouping rows *)

Lemma pad_cell (n j : nat) (r lab : list scalar) :
  j < n -> cell j (pad n r ++ lab) = cell j r.
Proof.
  intros Hj. unfold cell, pad.
  assert (Hlen : List.length (firstn n r ++ repeat NaN (n - List.length r)) = n).
  { rewrite length_app, length_firstn, repeat_length. lia. }
  rewrite app_nth1 by lia.
  destruct (Nat.lt_ge_cases j (List.length r)) as [Hlt|Hge].
  - rewrite app_nth1 by (rewrite length_firstn; lia).
    rewrite nth_firstn. destruct (Nat.ltb_spec j n); [reflexivity | lia].
  - rewrite app_nth2 by (rewrite length_firstn; lia).
    rewrite (nth_overflow r) by lia. apply nth_repeat.
Qed.

Lemma key_of_ext (locs : list nat) (r1 r2 : list scalar) :
  (forall j, In j locs -> cell j r1 = cell j r2) ->
  key_of locs r1 = key_of locs r2.
Proof.
  induction locs as [|j t IH]; simpl; intros H; [reflexivity|].
  rewrite (H j) by auto. destruct (cell j r2); [reflexivity|].
  rewrite IH by auto. reflexivity.
Qed.

Lemma observe_ext (cols : list nat) (r1 r2 : list scalar) :
  (forall j, In j cols -> cell j r1 = cell j r2) ->
  observe cols r1 = observe cols r2.
Proof.
  intros H. unfold observe. apply map_ext_in. intros j Hj. now rewrite (H j Hj).
Qed.

(** The pass reads of a row its group key and which of the selected cells are
    present. *)
Lemma pass_ext (locs cols : list nat) (rs1 rs2 : list (list scalar)) :
  Forall2 (fun r1 r2 => key_of locs r1 = key_of locs r2 /\
                        observe cols r1 = observe cols r2) rs1 rs2 ->
  forall acc,
    fold_left (tally_row locs cols) rs1 acc =
      fold_left (tally_row locs cols) rs2 acc.
Proof.
  induction 1 as [|r1 r2 rs1 rs2 [Hk Ho] _ IH]; intros acc; simpl; [reflexivity|].
  unfold tally_row at 2 4. rewrite Hk, Ho. apply IH.
Qed.

(** Keys and columns read among the columns are read in the cells. *)
Lemma group_counts_columns (df : DataFrame) (locs cols : list nat) :
  Forall (fun j => j < List.length (columns df)) locs ->
  Forall (fun j => j < List.length (columns df)) cols ->
  group_counts locs cols (grouping_rows df) = group_counts locs cols (values df).
Proof.
  intros Hl Hc. rewrite Forall_forall in Hl, Hc.
  unfold group_counts, grouping_rows, values. apply pass_ext.
  induction (rows df) as [|r t IH]; simpl; constructor; [|exact IH].
  split; [apply key_of_ext | apply observe_ext]; intros j Hj;
    apply pad_cell; auto.
Qed.

(** The keys of a plain frame are its columns. *)
Lemma key_loc_column (df : DataFrame) (k : string) (j : nat) :
  plain df -> first_loc k (columns df) = Some j -> key_loc df k = Ok j.
Proof.
  intros [Hnd Hix] H. unfold key_loc.
  rewrite (get_loc_unique _ _ j Hnd H), Hix. reflexivity.
Qed.

Lemma key_loc_missing (df : DataFrame) (k : string) :
  index_names df = [] -> ~ In k (columns df) -> key_loc df k = Raise (KeyError k).
Proof.
  intros Hix H. unfold key_loc. rewrite (get_loc_absent _ _ H), Hix. reflexivity.
Qed.

(** * The route-count table *)

Lemma route_counts_run (routes : DataFrame) (js jd jv : nat) :
  plain routes ->
  first_loc "SourceID" (columns routes) = Some js ->
  first_loc "DestinationID" (columns routes) = Some jd ->
  first_loc "Stops" (columns routes) = Some jv ->
  route_counts routes =
    Ok (mkDataFrame [] ["SourceID"; "DestinationID"; "Stops"]
          (number_rows
             (map (fun kc => map Int (fst kc) ++ [count_cell (hd 0 (snd kc))])
                (group_counts [js; jd] [jv] (values routes))))).
Proof.
  intros Hplain Hs Hd Hv. pose proof Hplain as [Hnd Hix].
  unfold route_counts, groupby; simpl.
  rewrite (key_loc_column routes _ js Hplain Hs); simpl.
  rewrite (key_loc_column routes _ jd Hplain Hd); simpl.
  unfold getattr; simpl. rewrite (positions_unique _ _ jv Hnd Hv); simpl.
  unfold reset_index, SeriesGroupBy_count, grouped_count; simpl.
  rewrite group_counts_columns;
    [|repeat constructor; eapply first_loc_nth; eassumption ..].
  rewrite map_map. do 3 f_equal. apply map_ext_in. intros [k c] Hin; simpl.
  pose proof (group_counts_widths [js; jd] [jv] (values routes)) as Hw.
  unfold widths in Hw. rewrite Forall_forall in Hw.
  pose proof (Hw _ Hin) as Hc; simpl in Hc.
  destruct c as [|x [|y c]]; try discriminate. reflexivity.
Qed.

Lemma pair_keys (js jd : nat) (cols : list nat) (rs : list (list scalar))
  (kc : list Z * list nat) :
  In kc (group_counts [js; jd] cols rs) -> exists s d, fst kc = [s; d].
Proof.
  intros Hin. apply (in_map fst) in Hin. apply group_counts_keys in Hin.
  destruct Hin as [r [_ Hk]]. apply key_of_two in Hk.
  destruct Hk as [s [d [Hk _]]]; eauto.
Qed.

Lemma has_pair_key (routes : DataFrame) (js jd : nat) (s d : Z) (r : list scalar) :
  NoDup (columns routes) ->
  first_loc "SourceID" (columns routes) = Some js ->
  first_loc "DestinationID" (columns routes) = Some jd ->
  has_pair routes s d r = in_group [js; jd] [s; d] r.
Proof.
  intros Hnd Hs Hd. apply bool_eq_iff.
  unfold has_pair.
  rewrite (at_column_some _ _ js r Hnd Hs), (at_column_some _ _ jd r Hnd Hd).
  rewrite andb_true_iff, !scalar_eqb_eq.
  rewrite in_group_true, key_of_two. split.
  - intros [H1 H2]; eauto.
  - intros [s' [d' [[= <- <-] H]]]; exact H.
Qed.

Lemma has_stops_cell (routes : DataFrame) (jv : nat) (r : list scalar) :
  NoDup (columns routes) -> first_loc "Stops" (columns routes) = Some jv ->
  has_stops routes r = notna (cell jv r).
Proof. intros Hnd Hv. unfold has_stops. now rewrite (at_column_some _ _ jv r Hnd Hv). Qed.

Lemma number_rows_labels {A : Type} (l : list A) :
  map fst (number_rows l) = map (fun i => [Int (Z.of_nat i)]) (seq 0 (List.length l)).
Proof.
  unfold number_rows. generalize 0.
  induction l as [|x l IH]; intros n; simpl; [reflexivity|].
  now rewrite IH.
Qed.

(** The route-count table of a plain route table, read off the counters of
    the pass. *)
Lemma route_counts_groups (routes : DataFrame) (js jd jv : nat) :
  plain routes ->
  first_loc "SourceID" (columns routes) = Some js ->
  first_loc "DestinationID" (columns routes) = Some jd ->
  first_loc "Stops" (columns routes) = Some jv ->
  route_counts routes =
    Ok (mkDataFrame [] ["SourceID"; "DestinationID"; "Stops"]
          (number_rows
             (map route_count_row
                (map route_entry (group_counts [js; jd] [jv] (values routes)))))) /\
  (forall s d n,
     In (s, d, n) (map route_entry (group_counts [js; jd] [jv] (values routes))) ->
     n = count_rows (fun r => has_pair routes s d r && has_stops routes r)
           (values routes) /\
     exists r, In r (values routes) /\ has_pair routes s d r = true) /\
  (forall s d,
     (exists r, In r (values routes) /\ has_pair routes s d r = true) ->
     In (s, d) (map fst (map route_entry (group_counts [js; jd] [jv] (values routes))))) /\
  NoDup (map fst (map route_entry (group_counts [js; jd] [jv] (values routes)))).
Proof.
  intros Hplain Hs Hd Hv. pose proof Hplain as [Hnd Hix].
  set (gc := group_counts [js; jd] [jv] (values routes)).
  assert (Hshape : forall kc, In kc gc ->
            fst kc = [fst (fst (route_entry kc)); snd (fst (route_entry kc))]).
  { intros kc Hin. destruct (pair_keys _ _ _ _ _ Hin) as [s [d Hk]].
    unfold route_entry; rewrite Hk; reflexivity. }
  split; [|split; [|split]].
  - rewrite (route_counts_run routes js jd jv) by assumption. fold gc.
    do 3 f_equal. rewrite map_map. apply map_ext_in. intros kc Hin.
    destruct (pair_keys _ _ _ _ _ Hin) as [s [d Hk]].
    unfold route_count_row, route_entry. rewrite Hk. reflexivity.
  - intros s d n Hin. apply in_map_iff in Hin. destruct Hin as [[k c] [He Hin]].
    destruct (pair_keys _ _ _ _ _ Hin) as [s' [d' Hk]]. simpl in Hk. subst k.
    unfold route_entry in He; simpl in He. injection He as -> -> Hn.
    split.
    + assert (E : n = nth 0 c 0) by (subst n; destruct c; reflexivity).
      rewrite E.
      rewrite (group_counts_entry [js; jd] [jv] (values routes) [s; d] c 0 Hin)
        by (simpl; lia).
      apply count_rows_ext. intros r _. unfold counted; simpl.
      rewrite (has_pair_key routes js jd) by assumption.
      now rewrite (has_stops_cell routes jv).
    + apply (in_map fst) in Hin. apply group_counts_keys in Hin.
      destruct Hin as [r [Hr Hkey]]. exists r. split; [assumption|].
      rewrite (has_pair_key routes js jd) by assumption.
      now apply in_group_true.
  - intros s d [r [Hr Hp]]. rewrite (has_pair_key routes js jd) in Hp by assumption.
    apply in_group_true in Hp.
    assert (Hin : In [s; d] (map fst gc)) by (apply group_counts_keys; eauto).
    apply in_map_iff in Hin. destruct Hin as [kc [Hk Hin]].
    rewrite map_map. apply in_map_iff. exists kc; split; [|assumption].
    unfold route_entry; rewrite Hk; reflexivity.
  - rewrite map_map.
    apply NoDup_map_NoDup_ForallPairs; [|].
    + intros a b Ha Hb Hab. cbv beta in Hab.
      pose proof (Hshape a Ha) as Ea. pose proof (Hshape b Hb) as Eb.
      assert (Hk : fst a = fst b) by (rewrite Ea, Eb, Hab; reflexivity).
      pose proof (group_counts_NoDup [js; jd] [jv] (values routes)) as Hnd'.
      fold gc in Hnd'.
      destruct a as [ka ca], b as [kb cb]; simpl in Hk; subst kb.
      f_equal. apply (find_key_In ka ca gc Hnd') in Ha.
      apply (find_key_In ka cb gc Hnd') in Hb. congruence.
    + apply (NoDup_map_inv fst). apply group_counts_NoDup.
Qed.

(** C1. A row whose Stops value is missing belongs to its pair's group and is
    not counted: on the table of the one row (1, 2, missing) the count stored
    for (1, 2) is 0 while one route row has source 1 and destination 2. *)
Lemma route_counts_missing_stops :
  route_counts (route_table [(Int 1, Int 2, NaN)]) =
    Ok (mkDataFrame [] ["SourceID"; "DestinationID"; "Stops"]
          [([Int 0], route_count_row (1%Z, 2%Z, 0))]) /\
  count_rows (has_pair (route_table [(Int 1, Int 2, NaN)]) 1 2)
    (values (route_table [(Int 1, Int 2, NaN)])) = 1.
Proof. split; reflexivity. Qed.


(** * The busiest airports *)

Lemma seq_sorted (a n : nat) : StronglySorted lt (seq a n).
Proof.
  revert a; induction n as [|n IH]; intros a; simpl; constructor; auto.
  apply Forall_forall. intros x Hx. apply in_seq in Hx. lia.
Qed.

Lemma filter_sorted {A : Type} (R : A -> A -> Prop) (p : A -> bool) (l : list A) :
  StronglySorted R l -> StronglySorted R (filter p l).
Proof.
  induction 1 as [|x l Hs IH Hall]; simpl; [constructor|].
  destruct (p x); [|assumption]. constructor; [assumption|].
  rewrite Forall_forall in *. intros y Hy. apply filter_In in Hy. apply Hall, Hy.
Qed.

(** A column keeps its label when a frame is cut down to an ascending list of
    its column positions. *)
Lemma first_loc_positions (name : string) (cols : list string) (j : nat) (l : list nat) :
  first_loc name cols = Some j -> StronglySorted lt l -> In j l ->
  exists i, first_loc name (map (fun p => nth p cols "") l) = Some i /\
            i < List.length l /\ nth i l 0 = j.
Proof.
  intros Hj. induction 1 as [|a l Hs IH Hall]; simpl; [tauto|].
  intros [->|Hin].
  - exists 0. destruct (first_loc_nth _ _ _ Hj) as [_ Hn].
    rewrite Hn, String.eqb_refl. repeat split; lia.
  - rewrite Forall_forall in Hall. pose proof (Hall j Hin) as Hlt.
    pose proof (first_loc_first _ _ _ _ Hj Hlt) as Hne.
    apply String.eqb_neq in Hne. rewrite Hne.
    destruct (IH Hin) as [i [Hi [Hlen Hnth]]].
    exists (S i). rewrite Hi; simpl. repeat split; [lia | assumption].
Qed.

Lemma value_locs_In (g : DataFrameGroupBy) (j : nat) :
  In j (value_locs g) <->
  j < List.length (columns (obj g)) /\ ~ In j (by_locs g).
Proof.
  unfold value_locs. rewrite filter_In, in_seq, negb_true_iff.
  assert (E : existsb (Nat.eqb j) (by_locs g) = false <-> ~ In j (by_locs g)).
  { rewrite <- not_true_iff_false, existsb_exists. split.
    - intros H Hin. apply H. exists j; split; [assumption | apply Nat.eqb_refl].
    - intros H [x [Hx Hjx]]. apply Nat.eqb_eq in Hjx. subst x. auto. }
  rewrite E. intuition lia.
Qed.

Lemma first_loc_inj (a b : string) (cols : list string) (j : nat) :
  first_loc a cols = Some j -> first_loc b cols = Some j -> a = b.
Proof.
  intros Ha Hb. apply first_loc_nth in Ha, Hb. destruct Ha, Hb; congruence.
Qed.

Lemma has_source_key (routes : DataFrame) (js : nat) (s : Z) (r : list scalar) :
  NoDup (columns routes) ->
  first_loc "SourceID" (columns routes) = Some js ->
  has_source routes s r = in_group [js] [s] r.
Proof.
  intros Hnd Hs. apply bool_eq_iff.
  unfold has_source. rewrite (at_column_some _ _ js r Hnd Hs).
  rewrite scalar_eqb_eq, in_group_true, key_of_one.
  split; [eauto | intros [s' [[= <-] H]]; exact H].
Qed.

Lemma cell_count (i : nat) (c : list nat) :
  i < List.length c -> cell i (map count_cell c) = count_cell (nth i c 0).
Proof.
  intros Hi; unfold cell.
  rewrite (nth_indep _ NaN (count_cell 0)) by (rewrite length_map; exact Hi).
  apply map_nth.
Qed.

Lemma value_columns_NoDup (g : DataFrameGroupBy) :
  NoDup (columns (obj g)) ->
  NoDup (map (fun j => nth j (columns (obj g)) "") (value_locs g)).
Proof.
  intros Hnd. apply NoDup_map_NoDup_ForallPairs.
  - intros a b Ha Hb E. apply value_locs_In in Ha, Hb.
    exact (proj1 (NoDup_nth (columns (obj g)) "") Hnd a b (proj1 Ha) (proj1 Hb) E).
  - unfold value_locs. apply NoDup_filter, seq_NoDup.
Qed.

(** The ranking step on a plain route table, call by call. *)
Lemma busiest_run (quicksort : list keyed_row -> list keyed_row)
  (routes : DataFrame) (js jv : nat) :
  plain routes ->
  first_loc "SourceID" (columns routes) = Some js ->
  first_loc "Stops" (columns routes) = Some jv ->
  exists i,
    i < List.length (value_locs (mkGroupBy routes ["SourceID"] [js])) /\
    nth i (value_locs (mkGroupBy routes ["SourceID"] [js])) 0 = jv /\
    busiest quicksort routes =
      Ok (map (fun e => hd NaN (fst (snd e)))
            (skipn
               (List.length
                  (quicksort
                     (map (fun r => (cell i (snd r), r))
                        (map (fun kc => (map Int (fst kc), map count_cell (snd kc)))
                           (group_counts [js]
                              (value_locs (mkGroupBy routes ["SourceID"] [js]))
                              (values routes))))) - 20)
               (quicksort
                  (map (fun r => (cell i (snd r), r))
                     (map (fun kc => (map Int (fst kc), map count_cell (snd kc)))
                        (group_counts [js]
                           (value_locs (mkGroupBy routes ["SourceID"] [js]))
                           (values routes))))))).
Proof.
  intros Hplain Hs Hv. pose proof Hplain as [Hnd Hix].
  set (g := mkGroupBy routes ["SourceID"] [js]).
  assert (Hjv : In jv (value_locs g)).
  { apply value_locs_In; simpl. split; [apply (first_loc_nth _ _ _ Hv)|].
    intros [E|[]]. subst jv.
    discriminate (first_loc_inj _ _ _ _ Hs Hv). }
  destruct (first_loc_positions "Stops" (columns routes) jv (value_locs g) Hv)
    as [i [Hi [Hlen Hnth]]]; [apply filter_sorted, seq_sorted | exact Hjv |].
  exists i. split; [exact Hlen|]. split; [exact Hnth|].
  unfold busiest, groupby. cbn [get_locs].
  rewrite (key_loc_column routes _ js Hplain Hs). cbn [bind]. fold g.
  unfold sort_values, DataFrameGroupBy_count, grouped_count.
  cbn [columns index_names rows by_names by_locs obj].
  rewrite (get_loc_unique _ _ i (value_columns_NoDup g Hnd) Hi).
  unfold g. cbn [by_names by_locs obj].
  change (get_loc "Stops" ["SourceID"]) with Absent.
  cbn [bind]. unfold index_values, iloc_last. cbn [rows].
  rewrite group_counts_columns.
  - rewrite length_map, skipn_map, map_map. reflexivity.
  - repeat constructor. eapply first_loc_nth; eassumption.
  - apply Forall_forall. intros j Hj. now apply value_locs_In in Hj.
Qed.

Section Ranking.

Variable quicksort : list keyed_row -> list keyed_row.
Hypothesis quicksort_perm : forall l, Permutation l (quicksort l).
Hypothesis quicksort_sorted : forall l, StronglySorted keyed_le (quicksort l).

(** What the ranking step computes: the grouped frame sorted by its Stops
    count, one row per source id, of which the last twenty are kept. *)
Lemma busiest_ranking (routes : DataFrame) :
  plain routes ->
  In "SourceID" (columns routes) -> In "Stops" (columns routes) ->
  exists ranked : list keyed_row,
    busiest quicksort routes =
      Ok (map row_id (skipn (List.length ranked - 20) ranked)) /\
    StronglySorted keyed_le ranked /\
    NoDup (map row_id ranked) /\
    (forall e, In e ranked ->
       exists s, row_id e = Int s /\ is_source routes s /\
                 fst e = count_cell (outgoing routes s)) /\
    (forall s, is_source routes s -> In (Int s) (map row_id ranked)).
Proof.
  intros Hplain HS HV. pose proof Hplain as [Hnd Hix].
  destruct (first_loc_In _ _ HS) as [js Hs].
  destruct (first_loc_In _ _ HV) as [jv Hv].
  destruct (busiest_run quicksort routes js jv Hplain Hs Hv)
    as (i & Hlen & Hnth & Hrun).
  set (g := mkGroupBy routes ["SourceID"] [js]) in *.
  set (G := group_counts [js] (value_locs g) (values routes)) in *.
  set (row_of := fun kc : list Z * list nat =>
                   (map Int (fst kc), map count_cell (snd kc))).
  set (keyed := fun r : label * list scalar => (cell i (snd r), r)).
  set (ranked := quicksort (map keyed (map row_of G))).
  assert (Hperm : Permutation (map keyed (map row_of G)) ranked)
    by apply quicksort_perm.
  assert (Helt : forall kc, In kc G ->
            exists s, fst kc = [s] /\ is_source routes s /\
                      keyed (row_of kc) =
                        (count_cell (outgoing routes s),
                         ([Int s], map count_cell (snd kc)))).
  { intros [k c] Hin.
    pose proof (in_map fst _ _ Hin) as Hk. apply group_counts_keys in Hk.
    destruct Hk as [r [Hr Hk]]. simpl in Hk. pose proof Hk as Hk'.
    apply key_of_one in Hk'. destruct Hk' as [s [-> Hcell]].
    exists s. split; [reflexivity|]. split.
    { exists r. split; [assumption|].
      rewrite (has_source_key routes js) by assumption.
      apply (proj2 (in_group_true [js] [s] r)). exact Hk. }
    unfold keyed, row_of; simpl.
    pose proof (group_counts_widths [js] (value_locs g) (values routes)) as Hw.
    unfold widths in Hw. rewrite Forall_forall in Hw.
    pose proof (Hw _ Hin) as Hc; simpl in Hc.
    rewrite cell_count by lia.
    rewrite (group_counts_entry [js] (value_locs g) (values routes) [s] c i Hin Hlen).
    rewrite Hnth. f_equal. f_equal. unfold outgoing.
    apply count_rows_ext. intros r' _. unfold counted.
    rewrite (has_source_key routes js) by assumption.
    now rewrite (has_stops_cell routes jv). }
  exists ranked. split; [exact Hrun|].
  split; [apply quicksort_sorted|].
  split.
  { apply (Permutation_NoDup (Permutation_map row_id Hperm)).
    rewrite !map_map.
    apply NoDup_map_NoDup_ForallPairs.
    - intros a b Ha Hb Hab. cbv beta in Hab.
      destruct (Helt a Ha) as [sa [Ka [_ Ea]]].
      destruct (Helt b Hb) as [sb [Kb [_ Eb]]].
      unfold row_id in Hab. rewrite Ea, Eb in Hab; simpl in Hab.
      injection Hab as Hab. subst sb.
      pose proof (group_counts_NoDup [js] (value_locs g) (values routes)) as Hgnd.
      destruct a as [ka ca], b as [kb cb]; simpl in Ka, Kb; subst ka kb.
      f_equal. apply (find_key_In [sa] ca G Hgnd) in Ha.
      apply (find_key_In [sa] cb G Hgnd) in Hb. congruence.
    - apply (NoDup_map_inv fst). apply group_counts_NoDup. }
  split.
  { intros e He. apply (Permutation_in _ (Permutation_sym Hperm)) in He.
    rewrite !map_map in He. apply in_map_iff in He. destruct He as [kc [<- Hin]].
    destruct (Helt kc Hin) as [s [_ [Hsrc E]]].
    exists s. rewrite E. unfold row_id; simpl. auto. }
  intros s [r [Hr Hsrc]].
  rewrite (has_source_key routes js) in Hsrc by assumption.
  apply in_group_true in Hsrc.
  assert (Hin : In [s] (map fst G)) by (apply group_counts_keys; eauto).
  apply in_map_iff in Hin. destruct Hin as [kc [Hk Hin]].
  apply (Permutation_in _ (Permutation_map row_id Hperm)).
  rewrite !map_map. apply in_map_iff. exists kc. split; [|assumption].
  destruct (Helt kc Hin) as [s' [Hk' [_ E]]].
  unfold row_id; rewrite E; simpl. congruence.
Qed.

End Ranking.

(** ** Sorted lists and their tails *)

Lemma skipn_incl {A : Type} (n : nat) (l : list A) (x : A) :
  In x (skipn n l) -> In x l.
Proof.
  intros H. rewrite <- (firstn_skipn n l). apply in_or_app; now right.
Qed.

Lemma skipn_NoDup {A : Type} (n : nat) (l : list A) :
  NoDup l -> NoDup (skipn n l).
Proof.
  intros H. rewrite <- (firstn_skipn n l) in H. exact (NoDup_app_remove_l _ _ H).
Qed.

Lemma sorted_app_inv {A : Type} (R : A -> A -> Prop) (l1 l2 : list A) :
  StronglySorted R (l1 ++ l2) ->
  StronglySorted R l2 /\ forall x y, In x l1 -> In y l2 -> R x y.
Proof.
  induction l1 as [|a l1 IH]; simpl; intros H.
  - split; [assumption | intros x y []].
  - inversion H as [|? ? Hs Hall]; subst. destruct (IH Hs) as [H2 Hx].
    split; [assumption|]. intros x y [->|Hin] Hy; [|auto].
    rewrite Forall_forall in Hall. apply Hall, in_or_app; now right.
Qed.

Lemma sorted_map {A B : Type} (R : A -> A -> Prop) (Q : B -> B -> Prop)
  (f : A -> B) (l : list A) :
  (forall x y, In x l -> In y l -> R x y -> Q (f x) (f y)) ->
  StronglySorted R l -> StronglySorted Q (map f l).
Proof.
  intros Hf Hs; induction Hs as [|a l Hs IH Hall]; simpl; constructor.
  - apply IH. intros x y Hx Hy; apply Hf; now right.
  - rewrite Forall_forall in *. intros b Hb. apply in_map_iff in Hb.
    destruct Hb as [y [<- Hy]]. apply Hf; [now left | now right | auto].
Qed.

Lemma skipn_last_length {A : Type} (n : nat) (l : list A) :
  List.length (skipn (List.length l - n) l) = Nat.min n (List.length l).
Proof. rewrite length_skipn. lia. Qed.

Lemma ints_In (l : list scalar) (z : Z) : In z (ints l) <-> In (Int z) l.
Proof.
  induction l as [|[|y] t IH]; simpl.
  - tauto.
  - rewrite IH. split; [auto | intros [H|H]; [discriminate | assumption]].
  - rewrite IH. split; [intros [->|H]; auto | intros [[= ->]|H]; auto].
Qed.

Lemma source_ids_In (routes : DataFrame) (s : Z) :
  In s (source_ids routes) <-> is_source routes s.
Proof.
  unfold source_ids, is_source, has_source.
  rewrite nodup_In, ints_In, in_map_iff. split.
  - intros [r [E Hr]]. exists r. split; [assumption|]. now apply scalar_eqb_eq.
  - intros [r [Hr E]]. exists r. apply scalar_eqb_eq in E. auto.
Qed.

Lemma keyed_le_counts (a b : nat) :
  scalar_leb (count_cell a) (count_cell b) = true <-> a <= b.
Proof. unfold count_cell; simpl. rewrite Z.leb_le. lia. Qed.

Lemma ranking_length (routes : DataFrame) (ranked : list keyed_row) :
  NoDup (map row_id ranked) ->
  (forall e, In e ranked ->
     exists s, row_id e = Int s /\ is_source routes s /\
               fst e = count_cell (outgoing routes s)) ->
  (forall s, is_source routes s -> In (Int s) (map row_id ranked)) ->
  List.length ranked = List.length (source_ids routes).
Proof.
  intros Hnd Helt Hall.
  rewrite <- (length_map row_id ranked), <- (length_map Int (source_ids routes)).
  apply Permutation_length, NoDup_Permutation; [assumption | |].
  - apply NoDup_map_NoDup_ForallPairs; [intros a b _ _ [= ->]; reflexivity|].
    apply NoDup_nodup.
  - intros x. rewrite !in_map_iff. split.
    + intros [e [<- He]]. destruct (Helt e He) as [s [Hid [Hsrc _]]].
      exists s. rewrite Hid. split; [reflexivity | now apply source_ids_In].
    + intros [s [<- Hs]]. apply source_ids_In in Hs.
      apply in_map_iff, Hall, Hs.
Qed.

Lemma outgoing_all_rows (routes : DataFrame) :
  Forall (fun r => has_stops routes r = true) (values routes) ->
  forall s, outgoing routes s = outgoing_rows routes s.
Proof.
  intros Hstops s. unfold outgoing, outgoing_rows.
  apply count_rows_ext. intros r Hr. rewrite Forall_forall in Hstops.
  rewrite (Hstops r Hr). apply andb_true_r.
Qed.

Lemma route_table_plain (l : list (scalar * scalar * scalar)) : plain (route_table l).
Proof.
  split; [|reflexivity]. simpl.
  repeat constructor; simpl; intuition discriminate.
Qed.

Lemma forallb_Forall {A : Type} (f : A -> bool) (l : list A) :
  forallb f l = true -> Forall (fun x => f x = true) l.
Proof. intros H. apply Forall_forall. now apply forallb_forall. Qed.

Section BusiestProperties.

Variable quicksort : list keyed_row -> list keyed_row.
Hypothesis quicksort_perm : forall l, Permutation l (quicksort l).
Hypothesis quicksort_sorted : forall l, StronglySorted keyed_le (quicksort l).

(** X13. For every plain route table with the SourceID and Stops columns, the
    busiest-airport list consists of min(20, number of distinct source ids)
    source ids of the table, every id in it has at least as many counted
    outgoing routes (rows with that source whose Stops value is present) as
    every source id outside it, and it holds every source id when there are
    at most 20 of them; when no row lacks its Stops value the counted outgoing
    routes of a source are its route rows. *)
Theorem busiest_top_counts (routes : DataFrame) :
  plain routes ->
  In "SourceID" (columns routes) -> In "Stops" (columns routes) ->
  exists b,
    busiest quicksort routes = Ok b /\
    List.length b = Nat.min 20 (List.length (source_ids routes)) /\
    (forall x, In x b -> exists s, x = Int s /\ is_source routes s) /\
    (forall s t, In (Int s) b -> is_source routes t -> ~ In (Int t) b ->
       outgoing routes t <= outgoing routes s) /\
    (List.length (source_ids routes) <= 20 ->
     forall t, is_source routes t -> In (Int t) b) /\
    (Forall (fun r => has_stops routes r = true) (values routes) ->
     forall s, outgoing routes s = outgoing_rows routes s).
Proof.
  intros Hplain HS HV.
  destruct (busiest_ranking quicksort quicksort_perm quicksort_sorted routes
              Hplain HS HV)
    as (ranked & Hrun & Hsorted & Hnd & Helt & Hall).
  eexists; split; [exact Hrun|].
  split.
  { rewrite length_map, skipn_last_length.
    now rewrite (ranking_length routes ranked Hnd Helt Hall). }
  set (n := List.length ranked - 20) in *.
  split; [|split; [|split]].
  - intros x Hx. apply in_map_iff in Hx. destruct Hx as [e [<- He]].
    apply skipn_incl in He. destruct (Helt e He) as [s [Hid [Hsrc _]]]. eauto.
  - intros s t Hs Ht Hnot.
    apply in_map_iff in Hs. destruct Hs as [e [Hide He]].
    destruct (Helt e (skipn_incl _ _ _ He)) as [s' [Hid' [_ Hke]]].
    assert (s' = s) by congruence. subst s'.
    pose proof (Hall t Ht) as Hin. apply in_map_iff in Hin.
    destruct Hin as [e' [Hide' He']].
    destruct (Helt e' He') as [t' [Hid'' [_ Hke']]].
    assert (t' = t) by congruence. subst t'.
    rewrite <- (firstn_skipn n ranked) in He', Hsorted.
    apply in_app_or in He'. destruct He' as [Hfirst|Hlast].
    + destruct (sorted_app_inv _ _ _ Hsorted) as [_ Hcross].
      pose proof (Hcross e' e Hfirst He) as Hle. unfold keyed_le in Hle.
      rewrite Hke, Hke' in Hle. now apply keyed_le_counts.
    + exfalso. apply Hnot. apply in_map_iff. eauto.
  - intros Hfew t Ht.
    rewrite <- (ranking_length routes ranked Hnd Helt Hall) in Hfew.
    replace n with 0 by (unfold n; lia). simpl. exact (Hall t Ht).
  - apply outgoing_all_rows.
Qed.

(** C3 (as amended). For every plain route table with the SourceID and Stops
    columns in which no row lacks its Stops value, the busiest-airport list is
    sorted by ascending outgoing-route count: each id has at most as many
    route rows as every id after it. *)
Theorem busiest_ascending (routes : DataFrame) :
  plain routes ->
  In "SourceID" (columns routes) -> In "Stops" (columns routes) ->
  Forall (fun r => has_stops routes r = true) (values routes) ->
  exists b,
    busiest quicksort routes = Ok b /\
    StronglySorted (fun x y => row_count_of routes x <= row_count_of routes y) b.
Proof.
  intros Hplain HS HV Hstops.
  destruct (busiest_ranking quicksort quicksort_perm quicksort_sorted routes
              Hplain HS HV)
    as (ranked & Hrun & Hsorted & _ & Helt & _).
  eexists; split; [exact Hrun|].
  set (n := List.length ranked - 20) in *.
  rewrite <- (firstn_skipn n ranked) in Hsorted.
  destruct (sorted_app_inv _ _ _ Hsorted) as [Htail _].
  apply (sorted_map keyed_le); [|exact Htail].
  intros x y Hx Hy Hle.
  destruct (Helt x (skipn_incl _ _ _ Hx)) as [s [Hs [_ Hkx]]].
  destruct (Helt y (skipn_incl _ _ _ Hy)) as [t [Ht [_ Hky]]].
  unfold keyed_le in Hle. rewrite Hkx, Hky in Hle.
  rewrite Hs, Ht; simpl. rewrite <- !(outgoing_all_rows routes Hstops).
  now apply keyed_le_counts.
Qed.

(** X15. For every plain route table with the SourceID and Stops columns,
    whatever values are missing, the busiest-airport list is in ascending order
    of counted outgoing routes (rows with that source whose Stops value is
    present): each id has at most as many as every id after it. *)
Theorem busiest_ascending_counted (routes : DataFrame) :
  plain routes ->
  In "SourceID" (columns routes) -> In "Stops" (columns routes) ->
  exists b,
    busiest quicksort routes = Ok b /\
    StronglySorted (fun x y => count_of routes x <= count_of routes y) b.
Proof.
  intros Hplain HS HV.
  destruct (busiest_ranking quicksort quicksort_perm quicksort_sorted routes
              Hplain HS HV)
    as (ranked & Hrun & Hsorted & _ & Helt & _).
  eexists; split; [exact Hrun|].
  set (n := List.length ranked - 20) in *.
  rewrite <- (firstn_skipn n ranked) in Hsorted.
  destruct (sorted_app_inv _ _ _ Hsorted) as [Htail _].
  apply (sorted_map keyed_le); [|exact Htail].
  intros x y Hx Hy Hle.
  destruct (Helt x (skipn_incl _ _ _ Hx)) as [s [Hs [_ Hkx]]].
  destruct (Helt y (skipn_incl _ _ _ Hy)) as [t [Ht [_ Hky]]].
  unfold keyed_le in Hle. rewrite Hkx, Hky in Hle.
  rewrite Hs, Ht; simpl. now apply keyed_le_counts.
Qed.

(** C4. For every plain route table with the SourceID and Stops columns, the
    length of the busiest-airport list is min(20, number of distinct source
    ids occurring in the table). *)
Theorem busiest_length (routes : DataFrame) :
  plain routes ->
  In "SourceID" (columns routes) -> In "Stops" (columns routes) ->
  exists b,
    busiest quicksort routes = Ok b /\
    List.length b = Nat.min 20 (List.length (source_ids routes)).
Proof.
  intros Hplain HS HV.
  destruct (busiest_ranking quicksort quicksort_perm quicksort_sorted routes
              Hplain HS HV)
    as (ranked & Hrun & _ & Hnd & Helt & Hall).
  eexists; split; [exact Hrun|].
  rewrite length_map, skipn_last_length.
  now rewrite (ranking_length routes ranked Hnd Helt Hall).
Qed.

(** C8. For every plain route table with the SourceID and Stops columns, the
    busiest-airport list has no duplicate, and each of its elements is the
    SourceID value of at least one row of the table. *)
Theorem busiest_distinct_sources (routes : DataFrame) :
  plain routes ->
  In "SourceID" (columns routes) -> In "Stops" (columns routes) ->
  exists b,
    busiest quicksort routes = Ok b /\
    NoDup b /\
    (forall x, In x b ->
       exists r, In r (values routes) /\ at_column routes "SourceID" r = x).
Proof.
  intros Hplain HS HV.
  destruct (busiest_ranking quicksort quicksort_perm quicksort_sorted routes
              Hplain HS HV)
    as (ranked & Hrun & _ & Hnd & Helt & _).
  eexists; split; [exact Hrun|].
  set (n := List.length ranked - 20) in *.
  split.
  - rewrite <- skipn_map. now apply skipn_NoDup.
  - intros x Hx. apply in_map_iff in Hx. destruct Hx as [e [<- He]].
    destruct (Helt e (skipn_incl _ _ _ He)) as [s [Hid [[r [Hr Hsrc]] _]]].
    exists r. split; [assumption|]. rewrite Hid.
    now apply scalar_eqb_eq.
Qed.

End BusiestProperties.

(** ** Insertion sort is a sort *)

Lemma scalar_leb_total (a b : scalar) : scalar_leb a b = false -> scalar_leb b a = true.
Proof.
  destruct a as [|x], b as [|y]; simpl; try congruence.
  rewrite Z.leb_gt, Z.leb_le. lia.
Qed.

Lemma scalar_leb_trans (a b c : scalar) :
  scalar_leb a b = true -> scalar_leb b c = true -> scalar_leb a c = true.
Proof.
  destruct a as [|x], b as [|y], c as [|z]; simpl; try congruence.
  rewrite !Z.leb_le. lia.
Qed.

Lemma insert_keyed_perm (x : keyed_row) (l : list keyed_row) :
  Permutation (x :: l) (insert_keyed x l).
Proof.
  induction l as [|y t IH]; simpl; [reflexivity|].
  destruct (scalar_leb (fst x) (fst y)); [reflexivity|].
  rewrite perm_swap. now constructor.
Qed.

Lemma insert_keyed_sorted (x : keyed_row) (l : list keyed_row) :
  StronglySorted keyed_le l -> StronglySorted keyed_le (insert_keyed x l).
Proof.
  induction 1 as [|y t Hs IH Hall]; simpl; [repeat constructor|].
  destruct (scalar_leb (fst x) (fst y)) eqn:E.
  - constructor; [now constructor|]. constructor; [exact E|].
    eapply Forall_impl; [|exact Hall].
    intros z Hz. exact (scalar_leb_trans _ _ _ E Hz).
  - constructor; [assumption|].
    apply (Permutation_Forall (insert_keyed_perm x t)).
    constructor; [exact (scalar_leb_total _ _ E) | assumption].
Qed.

Lemma insertion_sort_perm (l : list keyed_row) : Permutation l (insertion_sort l).
Proof.
  induction l as [|x t IH]; simpl; [reflexivity|].
  rewrite <- insert_keyed_perm. now constructor.
Qed.

Lemma insertion_sort_sorted (l : list keyed_row) :
  StronglySorted keyed_le (insertion_sort l).
Proof.
  induction l as [|x t IH]; simpl; [constructor | now apply insert_keyed_sorted].
Qed.

(** ** The sample tables under every sort *)

Section SampleTables.

Variable quicksort : list keyed_row -> list keyed_row.
Hypothesis quicksort_perm : forall l, Permutation l (quicksort l).
Hypothesis quicksort_sorted : forall l, StronglySorted keyed_le (quicksort l).

Lemma busiest_two_sources : busiest quicksort two_sources = Ok [Int 1; Int 2].
Proof.
  destruct (busiest_ranking quicksort quicksort_perm quicksort_sorted two_sources)
    as (ranked & Hrun & Hsorted & Hnd & Helt & Hall);
    [apply route_table_plain | simpl; tauto ..|].
  pose proof (ranking_length _ _ Hnd Helt Hall) as Hlen.
  change (List.length (source_ids two_sources)) with 2 in Hlen.
  destruct ranked as [|e1 [|e2 [|e3 l]]]; try discriminate.
  rewrite Hrun; simpl.
  destruct (Helt e1 (or_introl eq_refl)) as [s1 [H1 [Hsrc1 Hk1]]].
  destruct (Helt e2 (or_intror (or_introl eq_refl))) as [s2 [H2 [Hsrc2 Hk2]]].
  apply source_ids_In in Hsrc1, Hsrc2.
  inversion Hsorted as [|? ? _ Hle]; subst.
  inversion Hle as [|? ? Hle12 _]; subst.
  unfold keyed_le in Hle12. rewrite Hk1, Hk2 in Hle12.
  simpl in Hnd. rewrite H1, H2 in *.
  inversion Hnd as [|? ? Hnotin _]; subst.
  vm_compute in Hsrc1, Hsrc2.
  destruct Hsrc1 as [<-|[<-|[]]], Hsrc2 as [<-|[<-|[]]].
  - exfalso; apply Hnotin; now left.
  - reflexivity.
  - vm_compute in Hle12; discriminate.
  - exfalso; apply Hnotin; now left.
Qed.

Lemma busiest_twenty_one_sources :
  exists b,
    busiest quicksort twenty_one_sources = Ok b /\
    In (Int 1) b /\ ~ In (Int 0) b.
Proof.
  destruct (busiest_ranking quicksort quicksort_perm quicksort_sorted
              twenty_one_sources)
    as (ranked & Hrun & Hsorted & Hnd & Helt & Hall);
    [apply route_table_plain | simpl; tauto ..|].
  pose proof (ranking_length _ _ Hnd Helt Hall) as Hlen.
  change (List.length (source_ids twenty_one_sources)) with 21 in Hlen.
  rewrite Hlen in Hrun.
  destruct ranked as [|e0 rest]; [discriminate|].
  change (skipn (21 - 20) (e0 :: rest)) with rest in Hrun.
  assert (Hone : forall s, is_source twenty_one_sources s -> s <> 0%Z ->
                   outgoing twenty_one_sources s = 1).
  { intros s Hsrc Hne. apply source_ids_In in Hsrc. vm_compute in Hsrc.
    repeat (destruct Hsrc as [<-|Hsrc]; [try congruence; reflexivity|]).
    destruct Hsrc. }
  assert (Hsrc0 : is_source twenty_one_sources 0).
  { exists [Int 0; Int 1; NaN]. split; [simpl; tauto | reflexivity]. }
  assert (Hsrc1 : is_source twenty_one_sources 1).
  { exists [Int 1; Int 0; Int 0]. split; [simpl; tauto | reflexivity]. }
  assert (Hnot : ~ In (Int 0) (map row_id rest)).
  { intros Hin. apply in_map_iff in Hin. destruct Hin as [e [Hid He]].
    inversion Hsorted as [|? ? _ Hall0]; subst.
    rewrite Forall_forall in Hall0. pose proof (Hall0 e He) as Hle.
    destruct (Helt e0 (or_introl eq_refl)) as [s0 [Hid0 [Hs0 Hk0]]].
    destruct (Helt e (or_intror He)) as [s [Hids [_ Hk]]].
    assert (s = 0%Z) by congruence. subst s.
    assert (Hne : s0 <> 0%Z).
    { intros ->. simpl in Hnd. inversion Hnd as [|? ? Hnotin _]; subst.
      apply Hnotin. rewrite Hid0, <- Hid. now apply in_map. }
    unfold keyed_le in Hle. rewrite Hk0, Hk, (Hone s0 Hs0 Hne) in Hle.
    vm_compute in Hle. discriminate. }
  exists (map row_id rest). split; [exact Hrun|]. split; [|exact Hnot].
  pose proof (Hall 0%Z Hsrc0) as Hin0. pose proof (Hall 1%Z Hsrc1) as Hin1.
  simpl in Hin0, Hin1.
  destruct Hin0 as [E0|Hin0]; [|contradiction].
  destruct Hin1 as [E1|Hin1]; [congruence | exact Hin1].
Qed.

End SampleTables.

(** C2. A source whose routes lack their stop count is ranked by zero: under
    every sort, source 0 of [twenty_one_sources], with two route rows, the most
    of the table, is left out of the list and source 1, with one, is in it. *)
Lemma busiest_ranks_counted_rows :
  (forall quicksort : list keyed_row -> list keyed_row,
     (forall l, Permutation l (quicksort l)) ->
     (forall l, StronglySorted keyed_le (quicksort l)) ->
     exists b,
       busiest quicksort twenty_one_sources = Ok b /\
       In (Int 1) b /\ ~ In (Int 0) b) /\
  is_source twenty_one_sources 0 /\
  outgoing_rows twenty_one_sources 1 = 1 /\
  outgoing_rows twenty_one_sources 0 = 2.
Proof.
  split; [exact busiest_twenty_one_sources|].
  split; [|split; reflexivity].
  exists [Int 0; Int 1; NaN]. split; [simpl; tauto | reflexivity].
Qed.

(** C3. The list is in ascending order: under every sort, source 1 of
    [two_sources], with one route, comes before source 2, with two. *)
Lemma busiest_not_descending :
  (forall quicksort : list keyed_row -> list keyed_row,
     (forall l, Permutation l (quicksort l)) ->
     (forall l, StronglySorted keyed_le (quicksort l)) ->
     busiest quicksort two_sources = Ok [Int 1; Int 2]) /\
  row_count_of two_sources (Int 1) = 1 /\
  row_count_of two_sources (Int 2) = 2 /\
  ~ StronglySorted
      (fun x y => row_count_of two_sources y <= row_count_of two_sources x)
      [Int 1; Int 2].
Proof.
  split; [exact busiest_two_sources|].
  repeat split; try reflexivity.
  intros H. inversion H as [|? ? _ Hall]; subst.
  inversion Hall as [|? ? Hle _]; subst.
  vm_compute in Hle. lia.
Qed.

(** [busiest_top_counts] at [twenty_two_sources], where sources 1 and 2 have
    one route each and the twenty others two, under insertion sort. *)
Lemma busiest_top_counts_witness :
  (plain twenty_two_sources /\
   In "SourceID" (columns twenty_two_sources) /\
   In "Stops" (columns twenty_two_sources)) /\
  List.length (source_ids twenty_two_sources) = 22 /\
  exists b,
    busiest insertion_sort twenty_two_sources = Ok b /\
    List.length b = Nat.min 20 (List.length (source_ids twenty_two_sources)) /\
    (forall s t, In (Int s) b -> is_source twenty_two_sources t -> ~ In (Int t) b ->
       outgoing twenty_two_sources t <= outgoing twenty_two_sources s).
Proof.
  split; [repeat split; try apply route_table_plain; simpl; tauto|].
  split; [vm_compute; reflexivity|].
  destruct (busiest_top_counts insertion_sort insertion_sort_perm
              insertion_sort_sorted twenty_two_sources)
    as (b & Hb & Hlen & _ & Htop & _);
    [apply route_table_plain | simpl; tauto | simpl; tauto |].
  exists b; auto.
Defined.

(** C3 at [two_sources], under insertion sort. *)
Lemma busiest_ascending_witness :
  (plain two_sources /\
   In "SourceID" (columns two_sources) /\ In "Stops" (columns two_sources) /\
   Forall (fun r => has_stops two_sources r = true) (values two_sources)) /\
  exists b,
    busiest insertion_sort two_sources = Ok b /\
    StronglySorted
      (fun x y => row_count_of two_sources x <= row_count_of two_sources y) b.
Proof.
  assert (Hstops : Forall (fun r => has_stops two_sources r = true)
                     (values two_sources))
    by (apply forallb_Forall; vm_compute; reflexivity).
  split; [repeat split; try exact Hstops; try apply route_table_plain; simpl; tauto|].
  apply (busiest_ascending insertion_sort insertion_sort_perm insertion_sort_sorted);
    [apply route_table_plain | simpl; tauto | simpl; tauto | exact Hstops].
Defined.

(** C4 at [twenty_one_sources], under insertion sort. *)
Lemma busiest_length_witness :
  (plain twenty_one_sources /\
   In "SourceID" (columns twenty_one_sources) /\
   In "Stops" (columns twenty_one_sources)) /\
  exists b,
    busiest insertion_sort twenty_one_sources = Ok b /\
    List.length b = Nat.min 20 (List.length (source_ids twenty_one_sources)).
Proof.
  split; [repeat split; try apply route_table_plain; simpl; tauto|].
  apply (busiest_length insertion_sort insertion_sort_perm insertion_sort_sorted);
    [apply route_table_plain | simpl; tauto ..].
Defined.

(** C8 at [two_sources], under insertion sort. *)
Lemma busiest_distinct_sources_witness :
  (plain two_sources /\
   In "SourceID" (columns two_sources) /\ In "Stops" (columns two_sources)) /\
  exists b,
    busiest insertion_sort two_sources = Ok b /\
    NoDup b /\
    (forall x, In x b ->
       exists r, In r (values two_sources) /\ at_column two_sources "SourceID" r = x).
Proof.
  split; [repeat split; try apply route_table_plain; simpl; tauto|].
  apply (busiest_distinct_sources insertion_sort insertion_sort_perm
           insertion_sort_sorted);
    [apply route_table_plain | simpl; tauto ..].
Defined.

(** [busiest_ascending_counted] at [twenty_one_sources], where the two routes of
    source 0 lack their stop count, under insertion sort. *)
Lemma busiest_ascending_counted_witness :
  (plain twenty_one_sources /\
   In "SourceID" (columns twenty_one_sources) /\
   In "Stops" (columns twenty_one_sources)) /\
  exists b,
    busiest insertion_sort twenty_one_sources = Ok b /\
    StronglySorted
      (fun x y => count_of twenty_one_sources x <= count_of twenty_one_sources y) b.
Proof.
  split; [repeat split; try apply route_table_plain; simpl; tauto|].
  apply (busiest_ascending_counted insertion_sort insertion_sort_perm
           insertion_sort_sorted);
    [apply route_table_plain | simpl; tauto ..].
Defined.

(** * The counts of the route-count table *)

(** X12. For every plain route table with the three columns, the aggregation
    step returns a table of the three columns with exactly one entry per
    distinct (source id, destination id) pair occurring in a row, and the count
    stored for a pair is the number of route rows with that source and
    destination whose Stops value is present; when no row lacks its Stops
    value this is the number of route rows with that source and destination. *)
Theorem route_counts_counts (routes : DataFrame) :
  plain routes ->
  In "SourceID" (columns routes) ->
  In "DestinationID" (columns routes) ->
  In "Stops" (columns routes) ->
  exists rc es,
    route_counts routes = Ok rc /\
    index_names rc = [] /\
    columns rc = ["SourceID"; "DestinationID"; "Stops"] /\
    values rc = map route_count_row es /\
    NoDup (map fst es) /\
    (forall s d, In (s, d) (map fst es) <->
       exists r, In r (values routes) /\ has_pair routes s d r = true) /\
    (forall s d n, In (s, d, n) es ->
       n = count_rows (fun r => has_pair routes s d r && has_stops routes r)
             (values routes)) /\
    (Forall (fun r => has_stops routes r = true) (values routes) ->
     forall s d n, In (s, d, n) es ->
       n = count_rows (has_pair routes s d) (values routes)).
Proof.
  intros Hplain HS HD HV.
  destruct (first_loc_In _ _ HS) as [js Hs].
  destruct (first_loc_In _ _ HD) as [jd Hd].
  destruct (first_loc_In _ _ HV) as [jv Hv].
  destruct (route_counts_groups routes js jd jv Hplain Hs Hd Hv)
    as (Hrun & Hcount & Hocc & Hnd).
  set (es := map route_entry (group_counts [js; jd] [jv] (values routes))) in *.
  eexists; exists es.
  split; [exact Hrun|].
  split; [reflexivity|]. split; [reflexivity|].
  split; [unfold values; simpl; now rewrite number_rows_values|].
  split; [exact Hnd|].
  split.
  { intros s d. split; [|apply Hocc].
    intros Hin. apply in_map_iff in Hin. destruct Hin as [[[s' d'] n] [He Hin]].
    simpl in He. injection He as -> ->. exact (proj2 (Hcount s d n Hin)). }
  split; [intros s d n Hin; exact (proj1 (Hcount s d n Hin))|].
  intros Hall s d n Hin. rewrite (proj1 (Hcount s d n Hin)).
  apply count_rows_ext. intros r Hr. rewrite Forall_forall in Hall.
  rewrite (Hall r Hr). apply andb_true_r.
Qed.

(** [route_counts_counts] at a table of two rows, one without its stop count. *)
Lemma route_counts_counts_witness :
  (plain (route_table [(Int 7, Int 8, Int 0); (Int 7, Int 8, NaN)]) /\
   In "SourceID" (columns (route_table [(Int 7, Int 8, Int 0); (Int 7, Int 8, NaN)])) /\
   In "DestinationID" (columns (route_table [(Int 7, Int 8, Int 0); (Int 7, Int 8, NaN)])) /\
   In "Stops" (columns (route_table [(Int 7, Int 8, Int 0); (Int 7, Int 8, NaN)]))) /\
  exists rc es,
    route_counts (route_table [(Int 7, Int 8, Int 0); (Int 7, Int 8, NaN)]) = Ok rc /\
    values rc = map route_count_row es /\
    NoDup (map fst es).
Proof.
  split; [repeat split; try apply route_table_plain; simpl; tauto|].
  destruct (route_counts_counts
              (route_table [(Int 7, Int 8, Int 0); (Int 7, Int 8, NaN)]))
    as (rc & es & H1 & _ & _ & H3 & H4 & _);
    [apply route_table_plain | simpl; tauto ..|].
  exists rc, es; auto.
Defined.

(** * Totals *)

Lemma tally_total (n i : nat) (k : list Z) (obs : list nat) (acc : counters) :
  widths n acc -> List.length obs = n ->
  total i (tally k obs acc) = total i acc + nth i obs 0.
Proof.
  unfold total, widths; intros Hw Hobs.
  induction Hw as [|[k' c] t Hc Hw IH]; simpl; [lia|].
  simpl in Hc. destruct (key_compare k k'); simpl.
  - rewrite add_counts_nth by congruence. lia.
  - lia.
  - rewrite IH. lia.
Qed.

Lemma pass_total (locs cols : list nat) (rs : list (list scalar)) (acc : counters) (i : nat) :
  widths (List.length cols) acc -> i < List.length cols ->
  total i (fold_left (tally_row locs cols) rs acc) =
    total i acc + count_rows (tallied locs (nth i cols 0)) rs.
Proof.
  revert acc; induction rs as [|r rs IH]; simpl; intros acc Hw Hi.
  - unfold count_rows; simpl; lia.
  - rewrite IH by auto using tally_row_widths.
    unfold count_rows, tally_row, tallied; simpl.
    destruct (key_of locs r) as [k|]; [|lia].
    rewrite (tally_total (List.length cols)) by auto using observe_length.
    rewrite observe_nth by assumption.
    destruct (notna (cell (nth i cols 0) r)); simpl; lia.
Qed.

(** X14. For every plain route table with the three columns, the counts of the
    route-count table add up to the number of route rows the aggregation
    counts, the rows that have a source id, a destination id and a stop
    count; they add up to the number of rows of the table when no row lacks
    one of the three. *)
Theorem route_counts_total (routes : DataFrame) :
  plain routes ->
  In "SourceID" (columns routes) ->
  In "DestinationID" (columns routes) ->
  In "Stops" (columns routes) ->
  exists rc es,
    route_counts routes = Ok rc /\
    values rc = map route_count_row es /\
    list_sum (map snd es) = count_rows (is_counted routes) (values routes) /\
    (Forall (fun r => is_counted routes r = true) (values routes) ->
     list_sum (map snd es) = List.length (values routes)).
Proof.
  intros Hplain HS HD HV. pose proof Hplain as [Hnd Hix].
  destruct (first_loc_In _ _ HS) as [js Hs].
  destruct (first_loc_In _ _ HD) as [jd Hd].
  destruct (first_loc_In _ _ HV) as [jv Hv].
  destruct (route_counts_groups routes js jd jv Hplain Hs Hd Hv) as (Hrun & _).
  set (gc := group_counts [js; jd] [jv] (values routes)) in *.
  assert (Hsum : list_sum (map snd (map route_entry gc)) =
                 count_rows (is_counted routes) (values routes)).
  { rewrite map_map.
    transitivity (total 0 gc).
    { unfold total. f_equal. apply map_ext. intros [k [|x c]]; reflexivity. }
    unfold gc, group_counts. rewrite pass_total by (simpl; auto; constructor).
    simpl. apply count_rows_ext. intros r _.
    unfold tallied, is_counted. rewrite (has_stops_cell routes jv r Hnd Hv).
    rewrite (at_column_some _ _ js r Hnd Hs), (at_column_some _ _ jd r Hnd Hd).
    simpl. destruct (cell js r), (cell jd r); reflexivity. }
  eexists; exists (map route_entry gc).
  split; [exact Hrun|].
  split; [unfold values; simpl; now rewrite number_rows_values|].
  split; [exact Hsum|].
  intros Hall. rewrite Hsum. unfold count_rows.
  f_equal. apply forallb_filter_id. apply forallb_forall.
  now apply Forall_forall.
Qed.

(** [route_counts_total] at [two_sources]. *)
Lemma route_counts_total_witness :
  (plain two_sources /\
   In "SourceID" (columns two_sources) /\
   In "DestinationID" (columns two_sources) /\
   In "Stops" (columns two_sources)) /\
  exists rc es,
    route_counts two_sources = Ok rc /\
    values rc = map route_count_row es /\
    list_sum (map snd es) = count_rows (is_counted two_sources) (values two_sources).
Proof.
  split; [repeat split; try apply route_table_plain; simpl; tauto|].
  destruct (route_counts_total two_sources)
    as (rc & es & H1 & H2 & H3 & _);
    [apply route_table_plain | simpl; tauto ..|].
  exists rc, es; auto.
Defined.

(** * The worked example *)

(** C7. For the route table [(A,B,1), (A,B,1), (A,C,1)], with B and C two
    destinations, the route-count table has exactly the entries (A,B) with
    count 2 and (A,C) with count 1, and the source-grouped count of A is 3. *)
Theorem abc_counts (A B C : Z) :
  B <> C ->
  (exists rc,
     route_counts (abc_routes A B C) = Ok rc /\
     Permutation (values rc) [route_count_row (A, B, 2); route_count_row (A, C, 1)]) /\
  source_counts (abc_routes A B C) =
    Ok (mkDataFrame ["SourceID"] ["DestinationID"; "Stops"]
          [([Int A], [count_cell 3; count_cell 3])]).
Proof.
  intros Hne. split.
  - rewrite (route_counts_run (abc_routes A B C) 0 1 2)
      by (try apply route_table_plain; reflexivity).
    eexists; split; [reflexivity|].
    unfold values; cbn [rows]. rewrite number_rows_values.
    unfold abc_routes, route_table, values; cbn [rows].
    rewrite number_rows_values.
    unfold group_counts; cbn. rewrite !Z.compare_refl; cbn.
    destruct (Z.compare_spec C B) as [E|L|G]; rewrite ?Z.compare_refl; cbn.
    + congruence.
    + apply perm_swap.
    + apply Permutation_refl.
  - unfold source_counts, abc_routes, route_table, groupby; cbn.
    unfold DataFrameGroupBy_count, grouped_count, value_locs; cbn.
    repeat (rewrite Z.compare_refl; cbn).
    reflexivity.
Qed.

(** [abc_counts] at A = 1, B = 2, C = 3. *)
Lemma abc_counts_witness :
  2%Z <> 3%Z /\
  (exists rc,
     route_counts (abc_routes 1 2 3) = Ok rc /\
     Permutation (values rc) [route_count_row (1%Z, 2%Z, 2); route_count_row (1%Z, 3%Z, 1)]) /\
  source_counts (abc_routes 1 2 3) =
    Ok (mkDataFrame ["SourceID"] ["DestinationID"; "Stops"]
          [([Int 1], [count_cell 3; count_cell 3])]).
Proof.
  split; [discriminate|].
  apply (abc_counts 1 2 3). discriminate.
Defined.

(** * The two steps, call by call *)

Lemma busiest_source_counts (quicksort : list keyed_row -> list keyed_row)
  (routes : DataFrame) :
  busiest quicksort routes =
    (counts <- source_counts routes ;;
     sorted <- sort_values quicksort counts "Stops" ;;
     Ok (index_values (iloc_last 20 sorted))).
Proof.
  unfold busiest, source_counts. destruct (groupby routes ["SourceID"]); reflexivity.
Qed.

(** The grouped counts of a plain route table. *)
Lemma source_counts_run (routes : DataFrame) (js : nat) :
  plain routes ->
  first_loc "SourceID" (columns routes) = Some js ->
  source_counts routes =
    Ok (mkDataFrame ["SourceID"]
          (map (fun j => nth j (columns routes) "")
             (value_locs (mkGroupBy routes ["SourceID"] [js])))
          (map (fun kc => (map Int (fst kc), map count_cell (snd kc)))
             (group_counts [js] (value_locs (mkGroupBy routes ["SourceID"] [js]))
                (values routes)))).
Proof.
  intros Hplain Hs.
  unfold source_counts, groupby. cbn [get_locs].
  rewrite (key_loc_column routes _ js Hplain Hs). cbn [bind].
  unfold DataFrameGroupBy_count, grouped_count.
  cbn [by_names by_locs obj].
  rewrite group_counts_columns; [reflexivity | |].
  - repeat constructor. eapply first_loc_nth; eassumption.
  - apply Forall_forall. intros j Hj. now apply value_locs_In in Hj.
Qed.

Lemma route_counts_no_source (routes : DataFrame) :
  index_names routes = [] -> ~ In "SourceID" (columns routes) ->
  route_counts routes = Raise (KeyError "SourceID").
Proof.
  intros Hix H. unfold route_counts, groupby. cbn [get_locs].
  now rewrite (key_loc_missing routes _ Hix H).
Qed.

Lemma route_counts_no_destination (routes : DataFrame) :
  plain routes ->
  In "SourceID" (columns routes) -> ~ In "DestinationID" (columns routes) ->
  route_counts routes = Raise (KeyError "DestinationID").
Proof.
  intros Hplain HS H. destruct (first_loc_In _ _ HS) as [js Hs].
  unfold route_counts, groupby. cbn [get_locs].
  rewrite (key_loc_column routes _ js Hplain Hs). cbn [bind].
  now rewrite (key_loc_missing routes _ (proj2 Hplain) H).
Qed.

Lemma route_counts_no_stops (routes : DataFrame) :
  plain routes ->
  In "SourceID" (columns routes) -> In "DestinationID" (columns routes) ->
  ~ In "Stops" (columns routes) ->
  route_counts routes = Raise (AttributeError "Stops").
Proof.
  intros Hplain HS HD H.
  destruct (first_loc_In _ _ HS) as [js Hs].
  destruct (first_loc_In _ _ HD) as [jd Hd].
  unfold route_counts, groupby. cbn [get_locs].
  rewrite (key_loc_column routes _ js Hplain Hs). cbn [bind].
  rewrite (key_loc_column routes _ jd Hplain Hd). cbn [bind].
  unfold getattr, positions. cbn [obj].
  now rewrite (positions_from_absent _ _ _ H).
Qed.

Lemma get_loc_cut_absent (name : string) (cols : list string) (l : list nat) :
  ~ In name cols -> Forall (fun j => j < List.length cols) l ->
  get_loc name (map (fun p => nth p cols "") l) = Absent.
Proof.
  intros Hnot Hl. apply get_loc_absent. intros Hin. apply in_map_iff in Hin.
  destruct Hin as [j [Hj Hin]]. rewrite Forall_forall in Hl.
  apply Hnot. rewrite <- Hj. apply nth_In. auto.
Qed.

Lemma busiest_no_source (quicksort : list keyed_row -> list keyed_row)
  (routes : DataFrame) :
  index_names routes = [] -> ~ In "SourceID" (columns routes) ->
  busiest quicksort routes = Raise (KeyError "SourceID").
Proof.
  intros Hix H. unfold busiest, groupby. cbn [get_locs].
  now rewrite (key_loc_missing routes _ Hix H).
Qed.

Lemma busiest_no_stops (quicksort : list keyed_row -> list keyed_row)
  (routes : DataFrame) :
  plain routes ->
  In "SourceID" (columns routes) -> ~ In "Stops" (columns routes) ->
  busiest quicksort routes = Raise (KeyError "Stops").
Proof.
  intros Hplain HS H. destruct (first_loc_In _ _ HS) as [js Hs].
  rewrite busiest_source_counts, (source_counts_run routes js Hplain Hs).
  cbn [bind]. unfold sort_values. cbn [columns index_names].
  rewrite get_loc_cut_absent; [reflexivity | exact H |].
  apply Forall_forall. intros j Hj. now apply value_locs_In in Hj.
Qed.

(** Two plain route tables of the same columns on which the pass leaves the
    same counters give the same results. *)
Lemma route_counts_values (routes1 routes2 : DataFrame) :
  plain routes1 -> plain routes2 ->
  columns routes1 = columns routes2 ->
  In "SourceID" (columns routes1) -> In "DestinationID" (columns routes1) ->
  (forall js jd jv,
     first_loc "SourceID" (columns routes1) = Some js ->
     first_loc "DestinationID" (columns routes1) = Some jd ->
     group_counts [js; jd] [jv] (values routes1) =
       group_counts [js; jd] [jv] (values routes2)) ->
  route_counts routes1 = route_counts routes2.
Proof.
  intros Hp1 Hp2 Hc HS HD Hgc.
  destruct (in_dec string_dec "Stops" (columns routes1)) as [HV|HV].
  - destruct (first_loc_In _ _ HS) as [js Hs].
    destruct (first_loc_In _ _ HD) as [jd Hd].
    destruct (first_loc_In _ _ HV) as [jv Hv].
    rewrite (route_counts_run routes1 js jd jv) by assumption.
    rewrite (route_counts_run routes2 js jd jv) by (rewrite <- ?Hc; assumption).
    now rewrite (Hgc js jd jv Hs Hd).
  - rewrite (route_counts_no_stops routes1) by assumption.
    rewrite (route_counts_no_stops routes2) by (rewrite <- ?Hc; assumption).
    reflexivity.
Qed.

Lemma busiest_values (quicksort : list keyed_row -> list keyed_row)
  (routes1 routes2 : DataFrame) :
  plain routes1 -> plain routes2 ->
  columns routes1 = columns routes2 ->
  (forall js cols,
     first_loc "SourceID" (columns routes1) = Some js ->
     group_counts [js] cols (values routes1) =
       group_counts [js] cols (values routes2)) ->
  busiest quicksort routes1 = busiest quicksort routes2.
Proof.
  intros Hp1 Hp2 Hc Hgc.
  destruct (in_dec string_dec "SourceID" (columns routes1)) as [HS|HS].
  - destruct (first_loc_In _ _ HS) as [js Hs].
    rewrite !busiest_source_counts.
    rewrite (source_counts_run routes1 js Hp1 Hs).
    rewrite (source_counts_run routes2 js Hp2) by (rewrite <- Hc; assumption).
    unfold value_locs. cbn [obj by_locs]. rewrite <- Hc.
    now rewrite (Hgc js _ Hs).
  - rewrite (busiest_no_source quicksort routes1 (proj2 Hp1) HS).
    rewrite (busiest_no_source quicksort routes2 (proj2 Hp2))
      by (rewrite <- Hc; assumption).
    reflexivity.
Qed.

(** * Empty and malformed input *)

Section EmptyOrMalformed.

Variable quicksort : list keyed_row -> list keyed_row.
Hypothesis quicksort_perm : forall l, Permutation l (quicksort l).
Hypothesis quicksort_sorted : forall l, StronglySorted keyed_le (quicksort l).

(** C6 (as amended). Neither step validates its input. On a plain route table
    with the SourceID, DestinationID and Stops columns they raise no error,
    whatever the rows and their missing values, and on such a table without
    rows they return an empty route-count table and an empty busiest-airport
    list. On a plain table with the two id columns that lacks the Stops column
    both steps raise: the aggregation AttributeError, at the attribute access,
    and the top-N step KeyError, at [sort_values]. *)
Theorem empty_or_malformed_input (routes : DataFrame) :
  plain routes ->
  (In "SourceID" (columns routes) ->
   In "DestinationID" (columns routes) ->
   In "Stops" (columns routes) ->
   (exists rc b, route_counts routes = Ok rc /\ busiest quicksort routes = Ok b) /\
   (rows routes = [] ->
    route_counts routes =
      Ok (mkDataFrame [] ["SourceID"; "DestinationID"; "Stops"] []) /\
    busiest quicksort routes = Ok [])) /\
  (In "SourceID" (columns routes) ->
   In "DestinationID" (columns routes) ->
   ~ In "Stops" (columns routes) ->
   route_counts routes = Raise (AttributeError "Stops") /\
   busiest quicksort routes = Raise (KeyError "Stops")).
Proof.
  intros Hplain. split.
  - intros HS HD HV.
    destruct (first_loc_In _ _ HS) as [js Hs].
    destruct (first_loc_In _ _ HD) as [jd Hd].
    destruct (first_loc_In _ _ HV) as [jv Hv].
    destruct (busiest_ranking quicksort quicksort_perm quicksort_sorted routes
                Hplain HS HV)
      as (ranked & Hrun & _ & _ & Helt & _).
    split.
    + rewrite (route_counts_run routes js jd jv) by assumption. eauto.
    + intros Hrows. split.
      * rewrite (route_counts_run routes js jd jv) by assumption.
        unfold values; rewrite Hrows; reflexivity.
      * rewrite Hrun. destruct (skipn (List.length ranked - 20) ranked) as [|e t] eqn:E;
          [reflexivity|].
        assert (He : In e ranked)
          by (apply (skipn_incl (List.length ranked - 20)); rewrite E; now left).
        destruct (Helt e He) as [s [_ [[r [Hr _]] _]]].
        unfold values in Hr; rewrite Hrows in Hr. destruct Hr.
  - intros HS HD Hnot. split.
    + now apply route_counts_no_stops.
    + now apply busiest_no_stops.
Qed.

End EmptyOrMalformed.

(** C6. A table without the Stops column makes both steps raise, whatever the
    sort, a table without any column makes the aggregation raise, and a row
    without its stop count gives a route-count table that is not empty. *)
Lemma malformed_input_raises :
  route_counts (mkDataFrame [] ["SourceID"; "DestinationID"] []) =
    Raise (AttributeError "Stops") /\
  (forall quicksort : list keyed_row -> list keyed_row,
     busiest quicksort (mkDataFrame [] ["SourceID"; "DestinationID"] []) =
       Raise (KeyError "Stops")) /\
  route_counts (mkDataFrame [] [] []) = Raise (KeyError "SourceID") /\
  route_counts (route_table [(Int 1, Int 2, NaN)]) =
    Ok (mkDataFrame [] ["SourceID"; "DestinationID"; "Stops"]
          [([Int 0], [Int 1; Int 2; Int 0])]).
Proof. repeat split; reflexivity. Qed.

(** [empty_or_malformed_input] at the route table without rows. *)
Lemma empty_or_malformed_input_witness :
  (plain (route_table []) /\
   In "SourceID" (columns (route_table [])) /\
   In "DestinationID" (columns (route_table [])) /\
   In "Stops" (columns (route_table [])) /\
   rows (route_table []) = []) /\
  route_counts (route_table []) =
    Ok (mkDataFrame [] ["SourceID"; "DestinationID"; "Stops"] []) /\
  busiest insertion_sort (route_table []) = Ok [].
Proof.
  split; [repeat split; try apply route_table_plain; simpl; tauto|].
  apply (empty_or_malformed_input insertion_sort insertion_sort_perm
           insertion_sort_sorted (route_table []));
    [apply route_table_plain | simpl; tauto ..].
Defined.

(** * The selection *)

Lemma member_In (x : scalar) (ids : list scalar) : member x ids = true <-> In x ids.
Proof.
  unfold member. rewrite existsb_exists. split.
  - intros [y [Hy E]]. apply scalar_eqb_eq in E. now subst y.
  - intros H. exists x. split; [assumption | now apply scalar_eqb_eq].
Qed.

(** C5. For every chord structure and id list, under either policy, the
    node-mode selection keeps only nodes of the structure whose airport id is
    in the list, and only edges of the structure whose endpoints the policy
    selects: both in the list, or either in the list. *)
Theorem select_nodes_subset (p : endpoint_policy) (c : Chord) (ids : list scalar) :
  (forall a, In a (nodes (select_nodes p c ids)) ->
     In a (nodes c) /\ In (AirportID a) ids) /\
  (forall r, In r (rows (edges (select_nodes p c ids))) ->
     In r (rows (edges c)) /\
     endpoints_selected p ids (edge_source c r) (edge_destination c r)) /\
  columns (edges (select_nodes p c ids)) = columns (edges c).
Proof.
  split; [|split; [|reflexivity]].
  - intros a Ha. simpl in Ha. apply filter_In in Ha.
    destruct Ha as [Ha Hm]. split; [assumption | now apply member_In].
  - intros r Hr. simpl in Hr. apply filter_In in Hr.
    destruct Hr as [Hr Hsel]. split; [assumption|].
    destruct p; simpl in *.
    + apply andb_true_iff in Hsel. now rewrite <- !member_In.
    + apply orb_true_iff in Hsel. now rewrite <- !member_In.
Qed.

(** * The order of the rows *)

Lemma key_lt_asym (a b : list Z) : key_lt a b -> key_lt b a -> False.
Proof. intros H1 H2. exact (key_lt_irrefl a (key_lt_trans _ _ _ H1 H2)). Qed.

(** Two ascending lists of keys with the same elements are the same list. *)
Lemma sorted_keys_ext (l1 l2 : list (list Z)) :
  StronglySorted key_lt l1 -> StronglySorted key_lt l2 ->
  (forall k, In k l1 <-> In k l2) -> l1 = l2.
Proof.
  intros H1; revert l2; induction H1 as [|a l1 Hs1 IH Ha]; intros l2 H2 Hiff.
  - destruct l2 as [|b l2]; [reflexivity|].
    exfalso. apply (proj2 (Hiff b)). now left.
  - destruct H2 as [|b l2 Hs2 Hb].
    + exfalso. apply (proj1 (Hiff a)). now left.
    + rewrite Forall_forall in Ha, Hb.
      assert (E : a = b).
      { destruct (proj1 (Hiff a) (or_introl eq_refl)) as [E|Hin]; [auto|].
        destruct (proj2 (Hiff b) (or_introl eq_refl)) as [E|Hin']; [auto|].
        exfalso. exact (key_lt_asym _ _ (Ha b Hin') (Hb a Hin)). }
      subst b. f_equal. apply IH; [assumption|].
      intros k. split; intros Hk.
      * destruct (proj1 (Hiff k) (or_intror Hk)) as [E|Hin]; [|assumption].
        subst k. exfalso. exact (key_lt_irrefl a (Ha a Hk)).
      * destruct (proj2 (Hiff k) (or_intror Hk)) as [E|Hin]; [|assumption].
        subst k. exfalso. exact (key_lt_irrefl a (Hb a Hk)).
Qed.

Lemma nobs_head (k : list Z) (c : list nat) (t : counters) (i : nat) :
  nobs k i ((k, c) :: t) = nth i c 0.
Proof. unfold nobs; simpl. destruct (key_eq_dec k k); congruence. Qed.

Lemma nobs_tail (k k' : list Z) (c : list nat) (t : counters) (i : nat) :
  k' <> k -> nobs k' i ((k, c) :: t) = nobs k' i t.
Proof. intros H. unfold nobs; simpl. destruct (key_eq_dec k' k); congruence. Qed.

Lemma nobs_absent (k : list Z) (t : counters) (i : nat) :
  ~ In k (map fst t) -> nobs k i t = 0.
Proof. intros H. unfold nobs. now rewrite (proj2 (find_key_None k t) H). Qed.

(** Counters are determined by their keys and their counts. *)
Lemma counters_ext (n : nat) (acc1 acc2 : counters) :
  sorted_keys acc1 -> sorted_keys acc2 ->
  widths n acc1 -> widths n acc2 ->
  (forall k, In k (map fst acc1) <-> In k (map fst acc2)) ->
  (forall k i, i < n -> nobs k i acc1 = nobs k i acc2) ->
  acc1 = acc2.
Proof.
  intros Hs1 Hs2 Hw1 Hw2 Hkeys Hobs.
  pose proof (sorted_keys_ext _ _ Hs1 Hs2 Hkeys) as Hmap.
  clear Hkeys. revert acc2 Hs2 Hw2 Hobs Hmap.
  induction acc1 as [|[k c1] t1 IH]; intros [|[k2 c2] t2] Hs2 Hw2 Hobs Hmap;
    simpl in Hmap; try discriminate; [reflexivity|].
  injection Hmap as <- Hmap.
  pose proof (sorted_keys_NoDup _ Hs1) as Hnd1.
  pose proof (sorted_keys_NoDup _ Hs2) as Hnd2.
  simpl in Hnd1, Hnd2.
  inversion Hnd1 as [|? ? Hk1 Hnd1']; subst.
  inversion Hnd2 as [|? ? Hk2 Hnd2']; subst.
  assert (Hs1' : sorted_keys t1)
    by (unfold sorted_keys in *; simpl in Hs1; now inversion Hs1).
  assert (Hs2' : sorted_keys t2)
    by (unfold sorted_keys in *; simpl in Hs2; now inversion Hs2).
  apply Forall_cons_iff in Hw1, Hw2.
  destruct Hw1 as [Hc1 Hw1'], Hw2 as [Hc2 Hw2'].
  simpl in Hc1, Hc2.
  assert (E : c1 = c2).
  { apply (nth_ext _ _ 0 0); [congruence|].
    intros i Hi. rewrite <- (nobs_head k c1 t1 i), <- (nobs_head k c2 t2 i).
    apply Hobs. lia. }
  subst c2. f_equal.
  apply IH; try assumption.
  intros k' i Hi. destruct (key_eq_dec k' k) as [->|Hne].
  - rewrite !nobs_absent by assumption. reflexivity.
  - rewrite <- (nobs_tail k k' c1 t1 i Hne), <- (nobs_tail k k' c1 t2 i Hne).
    now apply Hobs.
Qed.

Lemma count_rows_perm {A : Type} (f : A -> bool) (l1 l2 : list A) :
  Permutation l1 l2 -> count_rows f l1 = count_rows f l2.
Proof.
  unfold count_rows. induction 1 as [|x l1 l2 _ IH|x y l|l1 l2 l3 _ IH1 _ IH2]; simpl.
  - reflexivity.
  - destruct (f x); simpl; congruence.
  - destruct (f x), (f y); reflexivity.
  - congruence.
Qed.

(** The counters do not depend on the order of the rows. *)
Lemma group_counts_perm (locs cols : list nat) (rs1 rs2 : list (list scalar)) :
  Permutation rs1 rs2 ->
  group_counts locs cols rs1 = group_counts locs cols rs2.
Proof.
  intros Hp. apply (counters_ext (List.length cols));
    auto using group_counts_sorted, group_counts_widths.
  - intros k. rewrite !group_counts_keys. split; intros [r [Hr Hk]]; exists r;
      (split; [|assumption]).
    + exact (Permutation_in _ Hp Hr).
    + exact (Permutation_in _ (Permutation_sym Hp) Hr).
  - intros k i Hi. rewrite !group_counts_nobs by assumption.
    now apply count_rows_perm.
Qed.
(** X1. The route-count table does not depend on the order of the route rows:
    two plain route tables with the same columns, among them SourceID and
    DestinationID, and the same rows up to their order give the same result of
    the aggregation step, table or exception. *)
Theorem route_counts_row_order (routes1 routes2 : DataFrame) :
  plain routes1 -> plain routes2 ->
  columns routes1 = columns routes2 ->
  In "SourceID" (columns routes1) -> In "DestinationID" (columns routes1) ->
  Permutation (values routes1) (values routes2) ->
  route_counts routes1 = route_counts routes2.
Proof.
  intros Hp1 Hp2 Hc HS HD Hp.
  apply route_counts_values; try assumption.
  intros js jd jv _ _. now apply group_counts_perm.
Qed.

Lemma two_sources_shuffled_perm :
  Permutation (values two_sources) (values two_sources_shuffled).
Proof.
  simpl.
  apply Permutation_cons_app
    with (l1 := [[Int 2; Int 8; Int 0]]) (l2 := [[Int 2; Int 9; Int 0]]).
  simpl. apply perm_swap.
Qed.

(** [route_counts_row_order] at [two_sources] and its rows in another order. *)
Lemma route_counts_row_order_witness :
  (plain two_sources /\ plain two_sources_shuffled /\
   columns two_sources = columns two_sources_shuffled /\
   In "SourceID" (columns two_sources) /\
   In "DestinationID" (columns two_sources) /\
   Permutation (values two_sources) (values two_sources_shuffled)) /\
  route_counts two_sources = route_counts two_sources_shuffled.
Proof.
  split.
  - repeat split; try apply route_table_plain; try exact two_sources_shuffled_perm;
      simpl; tauto.
  - apply route_counts_row_order;
      [apply route_table_plain | apply route_table_plain | reflexivity
      | simpl; tauto | simpl; tauto | exact two_sources_shuffled_perm].
Defined.

(** X2. The busiest-airport list does not depend on the order of the route
    rows either, whatever the sort: two plain route tables with the same
    columns and the same rows up to their order give the same result of the
    top-N step, list or exception; the rows are grouped before they are
    sorted. *)
Theorem busiest_row_order (quicksort : list keyed_row -> list keyed_row)
  (routes1 routes2 : DataFrame) :
  plain routes1 -> plain routes2 ->
  columns routes1 = columns routes2 ->
  Permutation (values routes1) (values routes2) ->
  busiest quicksort routes1 = busiest quicksort routes2.
Proof.
  intros Hp1 Hp2 Hc Hp.
  apply busiest_values; try assumption.
  intros js cols _. now apply group_counts_perm.
Qed.

(** [busiest_row_order] at [two_sources] and its rows in another order. *)
Lemma busiest_row_order_witness :
  (plain two_sources /\ plain two_sources_shuffled /\
   columns two_sources = columns two_sources_shuffled /\
   Permutation (values two_sources) (values two_sources_shuffled)) /\
  busiest insertion_sort two_sources = busiest insertion_sort two_sources_shuffled.
Proof.
  split.
  - repeat split; try apply route_table_plain; exact two_sources_shuffled_perm.
  - apply busiest_row_order;
      [apply route_table_plain | apply route_table_plain | reflexivity
      | exact two_sources_shuffled_perm].
Defined.

(** * Rows without their ids *)

Lemma values_keep_rows (f : list scalar -> bool) (df : DataFrame) :
  values (keep_rows f df) = filter f (values df).
Proof.
  unfold values, keep_rows; simpl.
  induction (rows df) as [|r t IH]; simpl; [reflexivity|].
  destruct (f (snd r)); simpl; now rewrite IH.
Qed.

(** Rows that belong to no group can be left out of the pass. *)
Lemma pass_filter (locs cols : list nat) (f : list scalar -> bool)
  (rs : list (list scalar)) (acc : counters) :
  (forall r, f r = false -> key_of locs r = None) ->
  fold_left (tally_row locs cols) (filter f rs) acc =
    fold_left (tally_row locs cols) rs acc.
Proof.
  intros Hf. revert acc; induction rs as [|r rs IH]; intros acc; simpl;
    [reflexivity|].
  destruct (f r) eqn:E; simpl; [apply IH|].
  rewrite IH.
  replace (tally_row locs cols acc r) with acc; [reflexivity|].
  unfold tally_row. now rewrite (Hf r E).
Qed.

(** X3. A route row without its source id or its destination id takes no part
    in the aggregation: on a plain route table with the SourceID and
    DestinationID columns the step gives the same result on the table and on
    the table without these rows. The top-N step likewise gives, on a plain
    route table, the same result without the rows that lack their source id,
    whatever the sort. *)
Theorem rows_without_ids_ignored (quicksort : list keyed_row -> list keyed_row)
  (routes : DataFrame) :
  plain routes ->
  (In "SourceID" (columns routes) -> In "DestinationID" (columns routes) ->
   route_counts (keep_rows (has_ids routes) routes) = route_counts routes) /\
  busiest quicksort (keep_rows (has_source_id routes) routes) =
    busiest quicksort routes.
Proof.
  intros Hplain. pose proof Hplain as [Hnd Hix]. split.
  - intros HS HD.
    apply route_counts_values; try assumption; [reflexivity|].
    intros js jd jv Hs Hd. rewrite values_keep_rows. unfold group_counts.
    apply pass_filter.
    intros r. unfold has_ids.
    rewrite (at_column_some _ _ js r Hnd Hs), (at_column_some _ _ jd r Hnd Hd).
    simpl. destruct (cell js r); [reflexivity|]. destruct (cell jd r); [reflexivity|].
    discriminate.
  - apply busiest_values; try assumption; [reflexivity|].
    intros js cols Hs. rewrite values_keep_rows. unfold group_counts.
    apply pass_filter.
    intros r. unfold has_source_id. rewrite (at_column_some _ _ js r Hnd Hs).
    simpl. destruct (cell js r); [reflexivity | discriminate].
Qed.

(** [rows_without_ids_ignored] at a table with a route that lacks its source
    id and a route that lacks its destination id, under insertion sort. *)
Lemma rows_without_ids_ignored_witness :
  plain rows_without_ids /\
  route_counts (keep_rows (has_ids rows_without_ids) rows_without_ids) =
    route_counts rows_without_ids /\
  busiest insertion_sort (keep_rows (has_source_id rows_without_ids) rows_without_ids) =
    busiest insertion_sort rows_without_ids.
Proof.
  split; [apply route_table_plain|].
  destruct (rows_without_ids_ignored insertion_sort rows_without_ids
              (route_table_plain _)) as [H1 H2].
  split; [apply H1; simpl; tauto | exact H2].
Defined.

(** * The rows of the route-count table *)

Lemma key_lt_pair (s1 d1 s2 d2 : Z) :
  key_lt [s1; d1] [s2; d2] -> pair_lt (s1, d1) (s2, d2).
Proof.
  unfold key_lt, pair_lt; simpl.
  destruct (Z.compare_spec s1 s2) as [E|L|G]; try discriminate; [|auto].
  destruct (Z.compare_spec d1 d2) as [E'|L'|G']; try discriminate. auto.
Qed.


(** X4. The rows of the route-count table of a plain route table with the
    three columns are in strictly ascending order of their (source id,
    destination id) pair, by source and then by destination, and they are
    numbered from zero. *)
Theorem route_counts_sorted (routes : DataFrame) :
  plain routes ->
  In "SourceID" (columns routes) ->
  In "DestinationID" (columns routes) ->
  In "Stops" (columns routes) ->
  exists rc es,
    route_counts routes = Ok rc /\
    values rc = map route_count_row es /\
    StronglySorted pair_lt (map fst es) /\
    map fst (rows rc) = map (fun i => [Int (Z.of_nat i)]) (seq 0 (List.length es)).
Proof.
  intros Hplain HS HD HV.
  destruct (first_loc_In _ _ HS) as [js Hs].
  destruct (first_loc_In _ _ HD) as [jd Hd].
  destruct (first_loc_In _ _ HV) as [jv Hv].
  destruct (route_counts_groups routes js jd jv Hplain Hs Hd Hv) as [Hrun _].
  set (gc := group_counts [js; jd] [jv] (values routes)) in *.
  eexists; exists (map route_entry gc). split; [exact Hrun|].
  split; [unfold values; simpl; apply number_rows_values|].
  split.
  - rewrite map_map.
    assert (E : map (fun kc => fst (route_entry kc)) gc =
                map (fun k => (nth 0 k 0%Z, nth 1 k 0%Z)) (map fst gc))
      by (rewrite map_map; reflexivity).
    rewrite E. apply (sorted_map key_lt); [|apply group_counts_sorted].
    intros x y Hx Hy Hlt.
    apply in_map_iff in Hx, Hy.
    destruct Hx as [kx [<- Hx]], Hy as [ky [<- Hy]].
    destruct (pair_keys _ _ _ _ _ Hx) as [s1 [d1 E1]].
    destruct (pair_keys _ _ _ _ _ Hy) as [s2 [d2 E2]].
    rewrite E1, E2 in *. simpl. now apply key_lt_pair.
  - simpl. rewrite number_rows_labels, !length_map. reflexivity.
Qed.

(** [route_counts_sorted] at [two_sources]. *)
Lemma route_counts_sorted_witness :
  (plain two_sources /\
   In "SourceID" (columns two_sources) /\
   In "DestinationID" (columns two_sources) /\
   In "Stops" (columns two_sources)) /\
  exists rc es,
    route_counts two_sources = Ok rc /\
    values rc = map route_count_row es /\
    StronglySorted pair_lt (map fst es).
Proof.
  split; [repeat split; try apply route_table_plain; simpl; tauto|].
  destruct (route_counts_sorted two_sources)
    as (rc & es & H1 & H2 & H3 & _);
    [apply route_table_plain | simpl; tauto ..|].
  exists rc, es; auto.
Defined.

Lemma count_rows_zero {A : Type} (f : A -> bool) (l : list A) :
  count_rows f l = 0 <-> forall x, In x l -> f x = false.
Proof.
  unfold count_rows; induction l as [|x l IH]; simpl.
  - split; [intros _ y [] | reflexivity].
  - destruct (f x) eqn:E; simpl.
    + split; [discriminate | intros H; rewrite (H x) in E by auto; discriminate].
    + rewrite IH. split; [intros H y [<-|Hy]; auto | intros H y Hy; auto].
Qed.

(** X5. The count of an entry of the route-count table of a plain route table
    with the three columns is zero exactly when every route row of its pair
    lacks its Stops value; when no row of the table lacks it, every entry has
    a count of at least one. *)
Theorem route_counts_zero (routes : DataFrame) :
  plain routes ->
  In "SourceID" (columns routes) ->
  In "DestinationID" (columns routes) ->
  In "Stops" (columns routes) ->
  exists rc es,
    route_counts routes = Ok rc /\
    values rc = map route_count_row es /\
    (forall s d n, In (s, d, n) es ->
       (n = 0 <->
        forall r, In r (values routes) -> has_pair routes s d r = true ->
                  has_stops routes r = false)) /\
    (Forall (fun r => has_stops routes r = true) (values routes) ->
     forall s d n, In (s, d, n) es -> 1 <= n).
Proof.
  intros Hplain HS HD HV.
  destruct (first_loc_In _ _ HS) as [js Hs].
  destruct (first_loc_In _ _ HD) as [jd Hd].
  destruct (first_loc_In _ _ HV) as [jv Hv].
  destruct (route_counts_groups routes js jd jv Hplain Hs Hd Hv) as (Hrun & Hes & _).
  set (gc := group_counts [js; jd] [jv] (values routes)) in *.
  eexists; exists (map route_entry gc). split; [exact Hrun|].
  split; [unfold values; simpl; apply number_rows_values|].
  assert (Hzero : forall s d n, In (s, d, n) (map route_entry gc) ->
            (n = 0 <->
             forall r, In r (values routes) -> has_pair routes s d r = true ->
                       has_stops routes r = false)).
  { intros s d n Hin. destruct (Hes s d n Hin) as [-> _].
    rewrite count_rows_zero. split.
    - intros H r Hr Hp. specialize (H r Hr). rewrite Hp in H. exact H.
    - intros H r Hr. destruct (has_pair routes s d r) eqn:E; [|reflexivity].
      simpl. now apply H. }
  split; [exact Hzero|].
  intros Hall s d n Hin.
  destruct (Nat.eq_dec n 0) as [E|]; [|lia].
  exfalso. destruct (Hes s d n Hin) as [_ [r [Hr Hp]]].
  rewrite Forall_forall in Hall.
  pose proof (proj1 (Hzero s d n Hin) E r Hr Hp) as Hno.
  rewrite (Hall r Hr) in Hno. discriminate.
Qed.

(** [route_counts_zero] at [two_sources]. *)
Lemma route_counts_zero_witness :
  (plain two_sources /\
   In "SourceID" (columns two_sources) /\
   In "DestinationID" (columns two_sources) /\
   In "Stops" (columns two_sources) /\
   Forall (fun r => has_stops two_sources r = true) (values two_sources)) /\
  exists rc es,
    route_counts two_sources = Ok rc /\
    values rc = map route_count_row es /\
    (forall s d n, In (s, d, n) es -> 1 <= n).
Proof.
  assert (Hall : Forall (fun r => has_stops two_sources r = true) (values two_sources))
    by (repeat constructor).
  split; [repeat split; try exact Hall; try apply route_table_plain; simpl; tauto|].
  destruct (route_counts_zero two_sources)
    as (rc & es & H1 & H2 & _ & H4);
    [apply route_table_plain | simpl; tauto ..|].
  exists rc, es. split; [exact H1|]. split; [exact H2 | exact (H4 Hall)].
Defined.

(** * The exceptions of the two steps *)

(** X6. On a plain route table whose number of rows is not two, the
    aggregation step returns a table exactly when the table has the SourceID,
    DestinationID and Stops columns. Otherwise it raises for the first that is
    missing, in this order: KeyError for SourceID, KeyError for DestinationID,
    AttributeError for Stops. (On a table of two rows, as many as the keys,
    [groupby] takes a key list that names a missing column for an array of
    group labels.) *)
Theorem route_counts_exceptions (routes : DataFrame) :
  plain routes -> List.length (rows routes) <> 2 ->
  ((exists rc, route_counts routes = Ok rc) <->
   In "SourceID" (columns routes) /\ In "DestinationID" (columns routes) /\
   In "Stops" (columns routes)) /\
  (~ In "SourceID" (columns routes) ->
   route_counts routes = Raise (KeyError "SourceID")) /\
  (In "SourceID" (columns routes) -> ~ In "DestinationID" (columns routes) ->
   route_counts routes = Raise (KeyError "DestinationID")) /\
  (In "SourceID" (columns routes) -> In "DestinationID" (columns routes) ->
   ~ In "Stops" (columns routes) ->
   route_counts routes = Raise (AttributeError "Stops")).
Proof.
  intros Hplain _.
  pose proof (route_counts_no_source routes (proj2 Hplain)) as H1.
  pose proof (route_counts_no_destination routes Hplain) as H2.
  pose proof (route_counts_no_stops routes Hplain) as H3.
  split; [|auto].
  split.
  - intros [rc Hrc].
    destruct (in_dec string_dec "SourceID" (columns routes)) as [HS|HS];
      [|rewrite (H1 HS) in Hrc; discriminate].
    destruct (in_dec string_dec "DestinationID" (columns routes)) as [HD|HD];
      [|rewrite (H2 HS HD) in Hrc; discriminate].
    destruct (in_dec string_dec "Stops" (columns routes)) as [HV|HV];
      [|rewrite (H3 HS HD HV) in Hrc; discriminate].
    auto.
  - intros (HS & HD & HV).
    destruct (first_loc_In _ _ HS) as [js Hs].
    destruct (first_loc_In _ _ HD) as [jd Hd].
    destruct (first_loc_In _ _ HV) as [jv Hv].
    rewrite (route_counts_run routes js jd jv) by assumption. eauto.
Qed.

(** [route_counts_exceptions] at a table with the SourceID column only. *)
Lemma route_counts_exceptions_witness :
  (plain (mkDataFrame [] ["SourceID"] []) /\
   List.length (rows (mkDataFrame [] ["SourceID"] [])) <> 2) /\
  route_counts (mkDataFrame [] ["SourceID"] []) = Raise (KeyError "DestinationID").
Proof.
  assert (Hp : plain (mkDataFrame [] ["SourceID"] [])).
  { split; [|reflexivity]. repeat constructor. simpl. tauto. }
  split; [split; [exact Hp | discriminate]|].
  destruct (route_counts_exceptions (mkDataFrame [] ["SourceID"] []) Hp)
    as (_ & _ & H & _); [discriminate|].
  apply H; simpl; [tauto|]. intros [E|[]]. discriminate E.
Defined.

(** X7. On a plain route table the top-N step returns a list exactly when the
    table has the SourceID and Stops columns, whatever the sort; it does not
    read the DestinationID column. Otherwise it raises KeyError, for SourceID
    when that column is missing and else for Stops. *)
Theorem busiest_exceptions (quicksort : list keyed_row -> list keyed_row)
  (routes : DataFrame) :
  plain routes ->
  ((exists b, busiest quicksort routes = Ok b) <->
   In "SourceID" (columns routes) /\ In "Stops" (columns routes)) /\
  (~ In "SourceID" (columns routes) ->
   busiest quicksort routes = Raise (KeyError "SourceID")) /\
  (In "SourceID" (columns routes) -> ~ In "Stops" (columns routes) ->
   busiest quicksort routes = Raise (KeyError "Stops")).
Proof.
  intros Hplain.
  pose proof (busiest_no_source quicksort routes (proj2 Hplain)) as H1.
  pose proof (busiest_no_stops quicksort routes Hplain) as H2.
  split; [|auto].
  split.
  - intros [b Hb].
    destruct (in_dec string_dec "SourceID" (columns routes)) as [HS|HS];
      [|rewrite (H1 HS) in Hb; discriminate].
    destruct (in_dec string_dec "Stops" (columns routes)) as [HV|HV];
      [|rewrite (H2 HS HV) in Hb; discriminate].
    auto.
  - intros [HS HV].
    destruct (first_loc_In _ _ HS) as [js Hs].
    destruct (first_loc_In _ _ HV) as [jv Hv].
    destruct (busiest_run quicksort routes js jv Hplain Hs Hv) as (i & _ & _ & Hrun).
    rewrite Hrun. eauto.
Qed.

(** [busiest_exceptions] at a table with the SourceID and DestinationID
    columns only, under insertion sort. *)
Lemma busiest_exceptions_witness :
  plain (mkDataFrame [] ["SourceID"; "DestinationID"] []) /\
  busiest insertion_sort (mkDataFrame [] ["SourceID"; "DestinationID"] []) =
    Raise (KeyError "Stops").
Proof.
  assert (Hp : plain (mkDataFrame [] ["SourceID"; "DestinationID"] [])).
  { split; [|reflexivity]. repeat constructor; simpl; intuition discriminate. }
  split; [exact Hp|].
  destruct (busiest_exceptions insertion_sort
              (mkDataFrame [] ["SourceID"; "DestinationID"] []) Hp)
    as (_ & _ & H).
  apply H; simpl; [tauto | intuition discriminate].
Defined.

(** * The two steps on the same table *)

Lemma tally_total_if (f : list Z -> bool) (n i : nat) (k : list Z)
  (obs : list nat) (acc : counters) :
  widths n acc -> List.length obs = n ->
  total_if f i (tally k obs acc) =
    total_if f i acc + (if f k then nth i obs 0 else 0).
Proof.
  unfold total_if, widths; intros Hw Hobs.
  induction Hw as [|[k' c] t Hc Hw IH]; simpl; [lia|].
  simpl in Hc. destruct (key_compare k k') eqn:E; simpl.
  - apply key_compare_eq in E. subst k'.
    destruct (f k); [rewrite add_counts_nth by congruence|]; lia.
  - lia.
  - rewrite IH. lia.
Qed.

Lemma pass_total_if (f : list Z -> bool) (locs cols : list nat)
  (rs : list (list scalar)) (acc : counters) (i : nat) :
  widths (List.length cols) acc -> i < List.length cols ->
  total_if f i (fold_left (tally_row locs cols) rs acc) =
    total_if f i acc +
    count_rows (fun r => match key_of locs r with
                         | Some k => f k && notna (cell (nth i cols 0) r)
                         | None => false
                         end) rs.
Proof.
  revert acc; induction rs as [|r rs IH]; simpl; intros acc Hw Hi.
  - unfold count_rows; simpl; lia.
  - rewrite IH by auto using tally_row_widths.
    unfold count_rows, tally_row; simpl.
    destruct (key_of locs r) as [k|]; [|lia].
    rewrite (tally_total_if f (List.length cols)) by auto using observe_length.
    rewrite observe_nth by assumption.
    destruct (f k), (notna (cell (nth i cols 0) r)); simpl; lia.
Qed.

Lemma total_from_entries (s : Z) (gc : counters) :
  total_from s (map route_entry gc) =
    total_if (fun k => Z.eqb (nth 0 k 0%Z) s) 0 gc.
Proof.
  unfold total_from, total_if.
  induction gc as [|[k c] t IH]; simpl; [reflexivity|].
  destruct (Z.eqb (nth 0 k 0%Z) s); simpl; rewrite IH; [|reflexivity].
  destruct c; reflexivity.
Qed.

Lemma count_rows_le {A : Type} (f g : A -> bool) (l : list A) :
  (forall x, In x l -> f x = true -> g x = true) ->
  count_rows f l <= count_rows g l.
Proof.
  unfold count_rows; induction l as [|x l IH]; simpl; intros H; [lia|].
  assert (IH' : List.length (filter f l) <= List.length (filter g l))
    by (apply IH; intros y Hy; apply H; now right).
  destruct (f x) eqn:E.
  - rewrite (H x (or_introl eq_refl) E). simpl. lia.
  - destruct (g x); simpl; lia.
Qed.


(** X8. The two steps agree on a source: on a plain route table with the three
    columns, the counts of the route-count entries out of a source id add up
    to the number of its route rows that have a destination id and a Stops
    value, which is at most the count by which the top-N step ranks the
    source, and equals it when no row of the table lacks its destination
    id. *)
Theorem route_counts_sum_by_source (routes : DataFrame) :
  plain routes ->
  In "SourceID" (columns routes) ->
  In "DestinationID" (columns routes) ->
  In "Stops" (columns routes) ->
  exists rc es,
    route_counts routes = Ok rc /\
    values rc = map route_count_row es /\
    (forall s,
       total_from s es =
         count_rows (fun r => has_source routes s r
                              && notna (at_column routes "DestinationID" r)
                              && has_stops routes r) (values routes)) /\
    (forall s, total_from s es <= outgoing routes s) /\
    (Forall (fun r => notna (at_column routes "DestinationID" r) = true)
       (values routes) ->
     forall s, total_from s es = outgoing routes s).
Proof.
  intros Hplain HS HD HV. pose proof Hplain as [Hnd Hix].
  destruct (first_loc_In _ _ HS) as [js Hs].
  destruct (first_loc_In _ _ HD) as [jd Hd].
  destruct (first_loc_In _ _ HV) as [jv Hv].
  destruct (route_counts_groups routes js jd jv Hplain Hs Hd Hv) as [Hrun _].
  set (gc := group_counts [js; jd] [jv] (values routes)) in *.
  eexists; exists (map route_entry gc). split; [exact Hrun|].
  split; [unfold values; simpl; apply number_rows_values|].
  assert (Hsum : forall s,
            total_from s (map route_entry gc) =
              count_rows (fun r => has_source routes s r
                                   && notna (at_column routes "DestinationID" r)
                                   && has_stops routes r) (values routes)).
  { intros s. rewrite total_from_entries. unfold gc, group_counts.
    rewrite pass_total_if by (simpl; auto; constructor).
    simpl. apply count_rows_ext. intros r _.
    unfold has_source. rewrite (has_stops_cell routes jv r Hnd Hv).
    rewrite (at_column_some _ _ js r Hnd Hs), (at_column_some _ _ jd r Hnd Hd).
    destruct (cell js r) as [|x]; [reflexivity|].
    destruct (cell jd r) as [|y]; simpl.
    - now rewrite andb_false_r.
    - rewrite andb_true_r. f_equal.
      unfold scalar_eqb. destruct (scalar_eq_dec (Int x) (Int s)) as [E|N].
      + injection E as ->. apply Z.eqb_refl.
      + apply Z.eqb_neq. congruence. }
  split; [exact Hsum|].
  split.
  - intros s. rewrite Hsum. unfold outgoing. apply count_rows_le.
    intros r _ H. apply andb_true_iff in H. destruct H as [H H3].
    apply andb_true_iff in H. destruct H as [H1 _]. now rewrite H1, H3.
  - intros Hall s. rewrite Hsum. unfold outgoing. apply count_rows_ext.
    intros r Hr. rewrite Forall_forall in Hall. rewrite (Hall r Hr).
    now rewrite andb_true_r.
Qed.

(** [route_counts_sum_by_source] at [two_sources]. *)
Lemma route_counts_sum_by_source_witness :
  (plain two_sources /\
   In "SourceID" (columns two_sources) /\
   In "DestinationID" (columns two_sources) /\
   In "Stops" (columns two_sources)) /\
  exists rc es,
    route_counts two_sources = Ok rc /\
    values rc = map route_count_row es /\
    (forall s, total_from s es <= outgoing two_sources s).
Proof.
  split; [repeat split; try apply route_table_plain; simpl; tauto|].
  destruct (route_counts_sum_by_source two_sources)
    as (rc & es & H1 & H2 & _ & H4 & _);
    [apply route_table_plain | simpl; tauto ..|].
  exists rc, es; auto.
Defined.

(** * The busiest airport *)

Lemma scalar_leb_refl (a : scalar) : scalar_leb a a = true.
Proof. destruct a as [|x]; simpl; [reflexivity | apply Z.leb_refl]. Qed.

Section BusiestAirport.

Variable quicksort : list keyed_row -> list keyed_row.
Hypothesis quicksort_perm : forall l, Permutation l (quicksort l).
Hypothesis quicksort_sorted : forall l, StronglySorted keyed_le (quicksort l).

(** X9. The last element of the busiest-airport list of a plain route table
    with the SourceID and Stops columns is a busiest airport: no source id of
    the table has more counted outgoing routes than it has. The list is empty
    exactly when the table has no source id. *)
Theorem busiest_last_is_max (routes : DataFrame) :
  plain routes ->
  In "SourceID" (columns routes) -> In "Stops" (columns routes) ->
  exists b,
    busiest quicksort routes = Ok b /\
    (b = [] <-> source_ids routes = []) /\
    (forall front x, b = front ++ [x] ->
       forall t, is_source routes t -> outgoing routes t <= count_of routes x).
Proof.
  intros Hplain HS HV.
  destruct (busiest_ranking quicksort quicksort_perm quicksort_sorted routes
              Hplain HS HV)
    as (ranked & Hrun & Hsorted & Hnd & Helt & Hall).
  pose proof (ranking_length routes ranked Hnd Helt Hall) as Hlen.
  eexists; split; [exact Hrun|].
  set (n := List.length ranked - 20) in *.
  split.
  - split; intros H.
    + apply (f_equal (@List.length scalar)) in H.
      rewrite length_map, length_skipn in H. simpl in H.
      apply length_zero_iff_nil. unfold n in H. lia.
    + apply (f_equal (@List.length Z)) in H. simpl in H.
      apply length_zero_iff_nil. rewrite length_map, length_skipn. lia.
  - intros front x Hb t Ht.
    apply map_eq_app in Hb. destruct Hb as (l1 & l2 & Hsplit & _ & Hx).
    destruct l2 as [|e [|e' l2]]; simpl in Hx; try discriminate.
    injection Hx as Hx.
    assert (He : In e ranked).
    { apply (skipn_incl n). rewrite Hsplit. apply in_or_app. right. now left. }
    destruct (Helt e He) as [s [Hid [_ Hke]]].
    pose proof (Hall t Ht) as Hin. apply in_map_iff in Hin.
    destruct Hin as [e' [Hid' He']].
    destruct (Helt e' He') as [t' [Hid'' [_ Hke']]].
    assert (t' = t) by congruence. subst t'.
    assert (Hle : keyed_le e' e).
    { rewrite <- (firstn_skipn n ranked), Hsplit, app_assoc in Hsorted, He'.
      apply in_app_or in He'. destruct He' as [Hfront|[<-|[]]].
      - destruct (sorted_app_inv _ _ _ Hsorted) as [_ Hcross].
        apply Hcross; [assumption | now left].
      - apply scalar_leb_refl. }
    unfold keyed_le in Hle. rewrite Hke, Hke' in Hle.
    rewrite <- Hx, Hid. simpl. now apply keyed_le_counts.
Qed.

End BusiestAirport.


(** [busiest_last_is_max] at [twenty_two_sources], under insertion sort. *)
Lemma busiest_last_is_max_witness :
  (plain twenty_two_sources /\
   In "SourceID" (columns twenty_two_sources) /\
   In "Stops" (columns twenty_two_sources)) /\
  exists b,
    busiest insertion_sort twenty_two_sources = Ok b /\
    (forall front x, b = front ++ [x] ->
       forall t, is_source twenty_two_sources t ->
                 outgoing twenty_two_sources t <= count_of twenty_two_sources x).
Proof.
  split; [repeat split; try apply route_table_plain; simpl; tauto|].
  destruct (busiest_last_is_max insertion_sort insertion_sort_perm
              insertion_sort_sorted twenty_two_sources)
    as (b & Hb & _ & Hmax);
    [apply route_table_plain | simpl; tauto ..|].
  exists b; auto.
Defined.

(** * The grouped counts *)

Lemma key_lt_one (a b : Z) : key_lt [a] [b] -> (a < b)%Z.
Proof.
  unfold key_lt; simpl. destruct (Z.compare_spec a b); try discriminate; auto.
Qed.


(** X10. The grouped counts that the top-N step sorts,
    [routes.groupby('SourceID').count()], have on a plain route table with the
    SourceID column one row per source id of the table, in ascending order of
    the id, and for every other column of the route table a column of the same
    label, whose cell in the row of a source is the number of route rows of
    that source whose value in the column is present. *)
Theorem source_counts_cells (routes : DataFrame) (c : string) :
  plain routes ->
  In "SourceID" (columns routes) -> In c (columns routes) -> c <> "SourceID" ->
  exists df i ids,
    source_counts routes = Ok df /\
    index_names df = ["SourceID"] /\
    get_loc c (columns df) = At i /\
    map fst (rows df) = map (fun s => [Int s]) ids /\
    StronglySorted Z.lt ids /\
    (forall s, In s ids <-> is_source routes s) /\
    (forall s cells, In ([Int s], cells) (rows df) ->
       cell i cells =
         count_cell
           (count_rows (fun r => has_source routes s r
                                 && notna (at_column routes c r))
              (values routes))).
Proof.
  intros Hplain HS HC Hne. pose proof Hplain as [Hnd Hix].
  destruct (first_loc_In _ _ HS) as [js Hs].
  destruct (first_loc_In _ _ HC) as [jc Hc].
  set (g := mkGroupBy routes ["SourceID"] [js]).
  assert (Hjc : In jc (value_locs g)).
  { apply value_locs_In; simpl. split; [apply (first_loc_nth _ _ _ Hc)|].
    intros [E|[]]. subst jc. apply Hne. exact (first_loc_inj _ _ _ _ Hc Hs). }
  destruct (first_loc_positions c (columns routes) jc (value_locs g) Hc)
    as [i [Hi [Hlen Hnth]]]; [apply filter_sorted, seq_sorted | exact Hjc |].
  set (G := group_counts [js] (value_locs g) (values routes)).
  assert (Hkeys : forall kc, In kc G -> fst kc = [hd 0%Z (fst kc)]).
  { intros kc Hin. apply (in_map fst) in Hin. apply group_counts_keys in Hin.
    destruct Hin as [r [_ Hk]]. apply key_of_one in Hk.
    destruct Hk as [s [-> _]]. reflexivity. }
  eexists; exists i, (map (fun kc => hd 0%Z (fst kc)) G).
  split; [exact (source_counts_run routes js Hplain Hs)|]. fold g. fold G.
  split; [reflexivity|].
  split; [exact (get_loc_unique _ _ i (value_columns_NoDup g Hnd) Hi)|].
  split.
  { cbn [rows]. rewrite !map_map.
    apply map_ext_in. intros kc Hin. simpl. now rewrite (Hkeys kc Hin). }
  split.
  { assert (E : map (fun kc => hd 0%Z (fst kc)) G = map (hd 0%Z) (map fst G))
      by (rewrite map_map; reflexivity).
    rewrite E. apply (sorted_map key_lt); [|apply group_counts_sorted].
    intros x y Hx Hy Hlt. apply in_map_iff in Hx, Hy.
    destruct Hx as [kx [<- Hx]], Hy as [ky [<- Hy]].
    rewrite (Hkeys kx Hx), (Hkeys ky Hy) in Hlt. now apply key_lt_one. }
  split.
  { intros s. rewrite in_map_iff. split.
    - intros [kc [<- Hin]]. pose proof (Hkeys kc Hin) as Hk.
      apply (in_map fst) in Hin. rewrite Hk in Hin.
      apply group_counts_keys in Hin. destruct Hin as [r [Hr Hkey]].
      exists r. split; [assumption|].
      rewrite (has_source_key routes js) by assumption.
      now apply in_group_true.
    - intros [r [Hr Hsrc]].
      rewrite (has_source_key routes js) in Hsrc by assumption.
      apply in_group_true in Hsrc.
      assert (Hin : In [s] (map fst G)) by (apply group_counts_keys; eauto).
      apply in_map_iff in Hin. destruct Hin as [kc [Hk Hin]].
      exists kc. split; [now rewrite Hk | assumption]. }
  intros s cells Hin. cbn [rows] in Hin.
  apply in_map_iff in Hin. destruct Hin as [[k cs] [He Hin]].
  simpl in He. injection He as Hk Hcells.
  pose proof (Hkeys _ Hin) as Hk'. simpl in Hk'. rewrite Hk' in Hk.
  simpl in Hk. injection Hk as Hk. rewrite Hk in Hk'. subst k.
  pose proof (group_counts_widths [js] (value_locs g) (values routes)) as Hw.
  unfold widths in Hw. rewrite Forall_forall in Hw.
  pose proof (Hw _ Hin) as Hcs; simpl in Hcs.
  rewrite <- Hcells, cell_count by lia.
  rewrite (group_counts_entry [js] (value_locs g) (values routes) [s] cs i Hin Hlen).
  rewrite Hnth. f_equal. apply count_rows_ext. intros r _. unfold counted.
  rewrite (has_source_key routes js) by assumption.
  now rewrite (at_column_some _ _ jc r Hnd Hc).
Qed.

(** [source_counts_cells] at [two_sources] and its DestinationID column. *)
Lemma source_counts_cells_witness :
  (plain two_sources /\
   In "SourceID" (columns two_sources) /\
   In "DestinationID" (columns two_sources) /\
   "DestinationID" <> "SourceID") /\
  exists df i ids,
    source_counts two_sources = Ok df /\
    get_loc "DestinationID" (columns df) = At i /\
    map fst (rows df) = map (fun s => [Int s]) ids /\
    StronglySorted Z.lt ids.
Proof.
  split.
  { split; [apply route_table_plain|].
    split; [|split]; [simpl; tauto | simpl; tauto | discriminate]. }
  destruct (source_counts_cells two_sources "DestinationID")
    as (df & i & ids & H1 & _ & H3 & H4 & H5 & _);
    [apply route_table_plain | simpl; tauto | simpl; tauto | discriminate |].
  exists df, i, ids; auto.
Defined.

(** * What is read of a row *)

Lemma observe_presence (cols : list nat) (r1 r2 : list scalar) :
  (forall j, In j cols -> notna (cell j r1) = notna (cell j r2)) ->
  observe cols r1 = observe cols r2.
Proof.
  intros H. unfold observe. apply map_ext_in. intros j Hj. now rewrite (H j Hj).
Qed.


(** X11. The stop counts themselves are not read, only whether they are
    present. Two plain route tables with the same columns, among them SourceID
    and DestinationID, whose rows agree, one by one, on the source id, the
    destination id and the presence of the Stops value have the same
    route-count table; when the rows of two plain route tables with the same
    columns agree on the source id and on which of their cells are present,
    the busiest-airport lists are the same too, whatever the sort. *)
Theorem stops_values_not_read (quicksort : list keyed_row -> list keyed_row)
  (routes1 routes2 : DataFrame) :
  plain routes1 -> plain routes2 ->
  columns routes1 = columns routes2 ->
  (In "SourceID" (columns routes1) -> In "DestinationID" (columns routes1) ->
   Forall2 (fun r1 r2 =>
              at_column routes1 "SourceID" r1 = at_column routes1 "SourceID" r2 /\
              at_column routes1 "DestinationID" r1 =
                at_column routes1 "DestinationID" r2 /\
              has_stops routes1 r1 = has_stops routes1 r2)
     (values routes1) (values routes2) ->
   route_counts routes1 = route_counts routes2) /\
  (Forall2 (fun r1 r2 =>
              at_column routes1 "SourceID" r1 = at_column routes1 "SourceID" r2 /\
              same_presence r1 r2)
     (values routes1) (values routes2) ->
   busiest quicksort routes1 = busiest quicksort routes2).
Proof.
  intros Hp1 Hp2 Hc. pose proof Hp1 as [Hnd Hix]. split.
  - intros HS HD Hrows.
    destruct (in_dec string_dec "Stops" (columns routes1)) as [HV|HV].
    + destruct (first_loc_In _ _ HS) as [js Hs].
      destruct (first_loc_In _ _ HD) as [jd Hd].
      destruct (first_loc_In _ _ HV) as [jv Hv].
      rewrite (route_counts_run routes1 js jd jv) by assumption.
      rewrite (route_counts_run routes2 js jd jv) by (rewrite <- ?Hc; assumption).
      unfold group_counts.
      rewrite (pass_ext [js; jd] [jv] (values routes1) (values routes2));
        [reflexivity|].
      eapply Forall2_impl; [|exact Hrows].
      intros r1 r2 (H1 & H2 & H3).
      rewrite !(at_column_some _ _ js _ Hnd Hs) in H1.
      rewrite !(at_column_some _ _ jd _ Hnd Hd) in H2.
      rewrite !(has_stops_cell routes1 jv _ Hnd Hv) in H3.
      split; [simpl; now rewrite H1, H2 | simpl; now rewrite H3].
    + rewrite (route_counts_no_stops routes1) by assumption.
      rewrite (route_counts_no_stops routes2) by (rewrite <- ?Hc; assumption).
      reflexivity.
  - intros Hrows. apply busiest_values; try assumption.
    intros js cols Hs. unfold group_counts. apply pass_ext.
    eapply Forall2_impl; [|exact Hrows].
    intros r1 r2 (H1 & H2). rewrite !(at_column_some _ _ js _ Hnd Hs) in H1.
    split; [simpl; now rewrite H1|].
    apply observe_presence. intros j _. apply H2.
Qed.

(** [stops_values_not_read] at [two_sources] and the same routes with other
    stop counts. *)
Lemma stops_values_not_read_witness :
  (plain two_sources /\ plain two_sources_other_stops /\
   columns two_sources = columns two_sources_other_stops /\
   In "SourceID" (columns two_sources) /\
   In "DestinationID" (columns two_sources)) /\
  route_counts two_sources = route_counts two_sources_other_stops.
Proof.
  split; [repeat split; try apply route_table_plain; simpl; tauto|].
  apply (stops_values_not_read insertion_sort two_sources two_sources_other_stops);
    [apply route_table_plain | apply route_table_plain | reflexivity
    | simpl; tauto | simpl; tauto |].
  repeat constructor.
Defined.

(** * Repeated labels and index levels *)


(** X16. On a table with the Stops label on two columns the aggregation step
    returns one count per Stops column, and the top-N step raises ValueError
    at [sort_values], whatever the sort. *)
Lemma repeated_stops_label :
  route_counts two_stops_columns =
    Ok (mkDataFrame [] ["SourceID"; "DestinationID"; "Stops"; "Stops"]
          [([Int 0], [Int 1; Int 2; Int 1; Int 0])]) /\
  (forall quicksort : list keyed_row -> list keyed_row,
     busiest quicksort two_stops_columns = Raise (ValueError "Stops")).
Proof. split; [reflexivity | intros quicksort; reflexivity]. Qed.

